(** * Silence segmentation and reassembly pipeline (main.py)

    main.py is a thin driver over the pydub audio library: every operation
    it performs on audio ([normalize], [silent], [+], [len], [dBFS],
    [split_on_silence]) is a pydub call.  The development therefore has
    three layers:

    - [Audioop]: the sample kernels pydub delegates to (CPython's audioop);
    - [Pydub]:   the part of pydub 0.25.1 that main.py reaches
                 (AudioSegment, effects.normalize and the silence module);
    - the functions of main.py, under their own names.

    Conventions.  A buffer of bytes is kept as the list of its signed
    samples (one [Z] per sample, channels interleaved), so a byte count
    [k * sample_width] is the sample count [k].  Python's binary floating
    point is idealised: quantities that end as integers (frame counts,
    millisecond lengths) are computed exactly in [Z], decibel and gain
    values are real numbers extended with minus infinity.  Python
    exceptions are the [Raise] results of an error monad. *)

From Stdlib Require Import ZArith List Bool String Lia Reals Lra.
Import ListNotations.
Local Open Scope Z_scope.

(** ** Python results *)

Inductive pyresult (A : Type) : Type :=
| Return (a : A)
| Raise (e : string).
Arguments Return {A} a.
Arguments Raise {A} e%_string.

Definition bind {A B : Type} (m : pyresult A) (k : A -> pyresult B) : pyresult B :=
  match m with
  | Return a => k a
  | Raise e => Raise e
  end.

Notation "x <- m ;; k" := (bind m (fun x => k))
  (at level 61, m at next level, right associativity).

Fixpoint mapM {A B : Type} (f : A -> pyresult B) (l : list A) : pyresult (list B) :=
  match l with
  | [] => Return []
  | a :: l' => b <- f a ;; bs <- mapM f l' ;; Return (b :: bs)
  end.

Fixpoint filterM {A : Type} (f : A -> pyresult bool) (l : list A) : pyresult (list A) :=
  match l with
  | [] => Return []
  | a :: l' =>
      keep <- f a ;; rest <- filterM f l' ;;
      Return (if keep then a :: rest else rest)
  end.

Definition raises {A : Type} (m : pyresult A) (e : string) : Prop := m = Raise e.
Arguments raises {A} m e%_string.
Definition succeeds {A : Type} (m : pyresult A) : Prop := exists a, m = Return a.

(** ** Python numbers *)

(** A Python float as main.py meets it: a real number or [-inf]. *)
Inductive pyfloat : Type :=
| NegInf
| Fin (r : R).

Definition pyfloat_add (x y : pyfloat) : pyfloat :=
  match x, y with
  | Fin a, Fin b => Fin (a + b)%R
  | _, _ => NegInf
  end.

Definition Rle_bool (a b : R) : bool := if Rle_dec a b then true else false.

(** [round(a / b)] for [0 < b]: Python 3 rounds halves to the even integer. *)
Definition py_round_div (a b : Z) : Z :=
  let q := a / b in
  let r2 := 2 * (a mod b) in
  if r2 <? b then q
  else if b <? r2 then q + 1
  else if Z.even q then q else q + 1.

(** [l[start:stop]] on a sequence, negative indices counted from the end. *)
Definition py_index (n i : Z) : Z :=
  if i <? 0 then Z.max (i + n) 0 else Z.min i n.

Definition py_slice {A : Type} (l : list A) (start stop : Z) : list A :=
  let n := Z.of_nat (List.length l) in
  let s := py_index n start in
  let e := py_index n stop in
  firstn (Z.to_nat (e - s)) (skipn (Z.to_nat s) l).

(** [range(0, n)] *)
Definition py_range (n : Z) : list Z := map Z.of_nat (seq 0 (Z.to_nat n)).

(** ** audioop: the sample kernels *)

Module Audioop.

Definition maxval (width : Z) : Z := 2 ^ (8 * width - 1) - 1.
Definition minval (width : Z) : Z := - 2 ^ (8 * width - 1).

(** [fbound]: clip, then round towards minus infinity. *)
Definition fbound (val : R) (width : Z) : Z :=
  if Rlt_dec (IZR (maxval width)) val then maxval width
  else if Rlt_dec val (IZR (minval width) + 1) then minval width
  else Zfloor val.

(** [audioop.mul(fragment, width, factor)] *)
Definition mul (fragment : list Z) (width : Z) (factor : R) : list Z :=
  map (fun v => fbound (IZR v * factor) width) fragment.

(** [audioop.max(fragment, width)]: the largest absolute sample value. *)
Definition max (fragment : list Z) (width : Z) : Z :=
  fold_left (fun m v => Z.max m (Z.abs v)) fragment 0.

(** [audioop.rms(fragment, width)]: the integer part of the root of the
    mean square, 0 for an empty fragment. *)
Definition rms (fragment : list Z) (width : Z) : Z :=
  match fragment with
  | [] => 0
  | _ =>
      let sum_squares := fold_left (fun s v => s + v * v) fragment 0 in
      Z.sqrt (sum_squares / Z.of_nat (List.length fragment))
  end.

(** [audioop.lin2lin(fragment, width, newwidth)]: samples pass through a
    32-bit representation. *)
Definition lin2lin (fragment : list Z) (width newwidth : Z) : list Z :=
  map (fun v => Z.shiftr (Z.shiftl v (32 - 8 * width)) (32 - 8 * newwidth)) fragment.

(** [audioop.tostereo(fragment, width, 1, 1)] *)
Definition tostereo (fragment : list Z) (width : Z) : list Z :=
  flat_map (fun v => [v; v]) fragment.

(** [audioop.tomono(fragment, width, 0.5, 0.5)] *)
Fixpoint tomono (fragment : list Z) (width : Z) : list Z :=
  match fragment with
  | l :: r :: rest => (l + r) / 2 :: tomono rest width
  | _ => []
  end.

(** One output frame of [ratecv]: linear interpolation between the
    previous and the current input frame, on 32-bit scaled samples. *)
Definition interpolate (width outrate d : Z) (prev cur : list Z) : list Z :=
  map (fun pc : Z * Z =>
         let (p, c) := pc in
         let p32 := Z.shiftl p (32 - 8 * width) in
         let c32 := Z.shiftl c (32 - 8 * width) in
         Z.shiftr (Z.quot (p32 * d + c32 * (outrate - d)) outrate) (32 - 8 * width))
      (combine prev cur).

(** The inner [while (d >= 0)] loop: [k] output frames. *)
Fixpoint emit (k : nat) (width inrate outrate d : Z) (prev cur : list Z) : list Z :=
  match k with
  | O => []
  | S k' =>
      interpolate width outrate d prev cur
        ++ emit k' width inrate outrate (d - inrate) prev cur
  end.

(** The outer loop, one input frame per step of [nframes]. *)
Fixpoint ratecv_loop (nframes : nat) (fragment : list Z)
    (width nchannels inrate outrate d : Z) (cur : list Z) : list Z :=
  match nframes with
  | O => []
  | S n' =>
      let prev := cur in
      let cur' := firstn (Z.to_nat nchannels) fragment in
      let rest := skipn (Z.to_nat nchannels) fragment in
      let d' := d + outrate in
      let k := if d' <? 0 then 0 else d' / inrate + 1 in
      emit (Z.to_nat k) width inrate outrate d' prev cur'
        ++ ratecv_loop n' rest width nchannels inrate outrate (d' - k * inrate) cur'
  end.

(** [audioop.ratecv(fragment, width, nchannels, inrate, outrate, None)],
    the converted fragment (the returned state is dropped by pydub). *)
Definition ratecv (fragment : list Z) (width nchannels inrate outrate : Z) : list Z :=
  let g := Z.gcd inrate outrate in
  let inrate' := inrate / g in
  let outrate' := outrate / g in
  let nframes := Z.to_nat (Z.of_nat (List.length fragment) / nchannels) in
  ratecv_loop nframes fragment width nchannels inrate' outrate' (- outrate')
    (repeat 0 (Z.to_nat nchannels)).

End Audioop.

(** ** pydub *)

Module Pydub.

(** [AudioSegment]: raw sample data with its format metadata
    ([frame_width] is [channels * sample_width] and is not stored). *)
Record AudioSegment : Type := mkAudioSegment {
  sample_width : Z;
  frame_rate : Z;
  channels : Z;
  data : list Z
}.

(** [seg._spawn(data)]: same metadata, new data. *)
Definition spawn (seg : AudioSegment) (d : list Z) : AudioSegment :=
  mkAudioSegment (sample_width seg) (frame_rate seg) (channels seg) d.

(** [seg.frame_count()] *)
Definition frame_count (seg : AudioSegment) : Z :=
  Z.of_nat (List.length (data seg)) / channels seg.

(** [len(seg)], in milliseconds: [round(1000 * (frame_count / frame_rate))]. *)
Definition len (seg : AudioSegment) : Z :=
  py_round_div (1000 * frame_count seg) (frame_rate seg).


(** [seg.max_possible_amplitude] *)
Definition max_possible_amplitude (seg : AudioSegment) : Z :=
  2 ^ (sample_width seg * 8) / 2.

(** [seg.max] and [seg.rms] *)
Definition max (seg : AudioSegment) : Z := Audioop.max (data seg) (sample_width seg).
Definition rms (seg : AudioSegment) : Z := Audioop.rms (data seg) (sample_width seg).

(** [utils.db_to_float(db)]: [10 ** (db / 20)] *)
Definition db_to_float (db : pyfloat) : R :=
  match db with
  | NegInf => 0%R
  | Fin x => Rpower 10 (x / 20)
  end.

(** [utils.ratio_to_db(ratio)]: [20 * log(ratio, 10)], [-inf] at 0. *)
Definition ratio_to_db (ratio : R) : pyfloat :=
  if Req_EM_T ratio 0 then NegInf
  else Fin (20 * (ln ratio / ln 10))%R.

(** [seg.dBFS] *)
Definition dBFS (seg : AudioSegment) : pyfloat :=
  if rms seg =? 0 then NegInf
  else ratio_to_db (IZR (rms seg) / IZR (max_possible_amplitude seg))%R.

(** [seg.apply_gain(volume_change)] *)
Definition apply_gain (seg : AudioSegment) (volume_change : pyfloat) : AudioSegment :=
  spawn seg (Audioop.mul (data seg) (sample_width seg) (db_to_float volume_change)).

(** [effects.normalize(seg, headroom=0.1)] *)
Definition normalize_headroom (seg : AudioSegment) (headroom : R) : AudioSegment :=
  let peak_sample_val := max seg in
  if peak_sample_val =? 0 then seg
  else
    let target_peak :=
      (IZR (max_possible_amplitude seg) * db_to_float (Fin (- headroom)))%R in
    let needed_boost := ratio_to_db (target_peak / IZR peak_sample_val)%R in
    apply_gain seg needed_boost.

Definition normalize (seg : AudioSegment) : AudioSegment :=
  normalize_headroom seg (1 / 10)%R.

(** [AudioSegment.empty()] *)
Definition empty : AudioSegment := mkAudioSegment 1 1 1 [].

(** [AudioSegment.silent(duration, frame_rate=11025)]:
    [int(frame_rate * (duration / 1000.0))] frames of one zero sample. *)
Definition silent_at (duration rate : Z) : AudioSegment :=
  let frames := Z.quot (rate * duration) 1000 in
  mkAudioSegment 2 rate 1 (repeat 0 (Z.to_nat frames)).

Definition silent (duration : Z) : AudioSegment := silent_at duration 11025.

(** The data cut into frames of [c] samples. *)
Fixpoint frames_of (n : nat) (c : nat) (d : list Z) : list (list Z) :=
  match n with
  | O => []
  | S n' => firstn c d :: frames_of n' c (skipn c d)
  end.

(** [seg.set_channels(channels)] *)
Definition set_channels (seg : AudioSegment) (chans : Z) : pyresult AudioSegment :=
  if chans =? channels seg then Return seg
  else if (chans =? 2) && (channels seg =? 1) then
    Return (mkAudioSegment (sample_width seg) (frame_rate seg) chans
              (Audioop.tostereo (data seg) (sample_width seg)))
  else if (chans =? 1) && (channels seg =? 2) then
    Return (mkAudioSegment (sample_width seg) (frame_rate seg) chans
              (Audioop.tomono (data seg) (sample_width seg)))
  else if chans =? 1 then
    let fc := Z.to_nat (frame_count seg) in
    Return (mkAudioSegment (sample_width seg) (frame_rate seg) chans
              (map (fun frame => fold_left (fun acc v => acc + v / channels seg) frame 0)
                   (frames_of fc (Z.to_nat (channels seg)) (data seg))))
  else if channels seg =? 1 then
    if chans <=? 0 then Raise "ValueError"
    else
      Return (mkAudioSegment (sample_width seg) (frame_rate seg) chans
                (flat_map (fun v => repeat v (Z.to_nat chans)) (data seg)))
  else Raise "ValueError".

(** [seg.set_frame_rate(frame_rate)] *)
Definition set_frame_rate (seg : AudioSegment) (rate : Z) : AudioSegment :=
  if rate =? frame_rate seg then seg
  else
    let converted :=
      match data seg with
      | [] => []
      | _ => Audioop.ratecv (data seg) (sample_width seg) (channels seg)
               (frame_rate seg) rate
      end in
    mkAudioSegment (sample_width seg) rate (channels seg) converted.

(** [seg.set_sample_width(sample_width)] *)
Definition set_sample_width (seg : AudioSegment) (width : Z) : AudioSegment :=
  if width =? sample_width seg then seg
  else
    mkAudioSegment width (frame_rate seg) (channels seg)
      (Audioop.lin2lin (data seg) (sample_width seg) width).

(** One segment of [AudioSegment._sync], brought to the common format. *)
Definition convert (seg : AudioSegment) (chans rate width : Z) : pyresult AudioSegment :=
  s1 <- set_channels seg chans ;;
  Return (set_sample_width (set_frame_rate s1 rate) width).

(** [AudioSegment._sync(seg1, seg2)]: both at the largest channel count,
    frame rate and sample width of the two. *)
Definition sync (seg1 seg2 : AudioSegment) : pyresult (AudioSegment * AudioSegment) :=
  let chans := Z.max (channels seg1) (channels seg2) in
  let rate := Z.max (frame_rate seg1) (frame_rate seg2) in
  let width := Z.max (sample_width seg1) (sample_width seg2) in
  s1 <- convert seg1 chans rate width ;;
  s2 <- convert seg2 chans rate width ;;
  Return (s1, s2).

(** [seg1 + seg2], that is [seg1.append(seg2, crossfade=0)]. *)
Definition append (seg1 seg2 : AudioSegment) : pyresult AudioSegment :=
  p <- sync seg1 seg2 ;;
  Return (spawn (fst p) (data (fst p) ++ data (snd p))).

(** [seg._parse_position(val)]: a millisecond offset as a frame index. *)
Definition parse_position (seg : AudioSegment) (val : Z) : Z :=
  let val := if val <? 0 then len seg - Z.abs val else val in
  Z.quot (val * frame_rate seg) 1000.

(** [seg[start:stop]], both bounds given in milliseconds. *)
Definition getitem (seg : AudioSegment) (start stop : Z) : pyresult AudioSegment :=
  let start := Z.min start (len seg) in
  let stop := Z.min stop (len seg) in
  let start := parse_position seg start * channels seg in
  let stop := parse_position seg stop * channels seg in
  let d := py_slice (data seg) start stop in
  let expected_length := stop - start in
  let missing_frames := (expected_length - Z.of_nat (List.length d)) / channels seg in
  if missing_frames =? 0 then Return (spawn seg d)
  else if 2 * frame_rate seg <? 1000 * missing_frames then Raise "TooManyMissingFrames"
  else
    let silence :=
      Audioop.mul (firstn (Z.to_nat (channels seg)) d) (sample_width seg) 0%R in
    Return (spawn seg (d ++ List.concat (repeat silence (Z.to_nat missing_frames)))).

(** *** pydub.silence, called with the default [seek_step=1] *)

(** The loop of [detect_silence] that joins silent window starts into
    ranges. *)
Fixpoint combine_ranges (min_silence_len : Z) (silence_starts : list Z)
    (prev_i current_range_start : Z) : list (Z * Z) :=
  match silence_starts with
  | [] => [(current_range_start, prev_i + min_silence_len)]
  | silence_start_i :: rest =>
      let continuous := silence_start_i =? prev_i + 1 in
      let silence_has_gap := prev_i + min_silence_len <? silence_start_i in
      if negb continuous && silence_has_gap
      then (current_range_start, prev_i + min_silence_len)
             :: combine_ranges min_silence_len rest silence_start_i silence_start_i
      else combine_ranges min_silence_len rest silence_start_i current_range_start
  end.

(** Is the window of [min_silence_len] ms that starts at [i] silent? *)
Definition window_silent (seg : AudioSegment) (min_silence_len : Z)
    (silence_thresh : R) (i : Z) : pyresult bool :=
  audio_slice <- getitem seg i (i + min_silence_len) ;;
  Return (Rle_bool (IZR (rms audio_slice)) silence_thresh).

(** [silence.detect_silence(seg, min_silence_len, silence_thresh)] *)
Definition detect_silence (seg : AudioSegment) (min_silence_len : Z)
    (silence_thresh : pyfloat) : pyresult (list (Z * Z)) :=
  let seg_len := len seg in
  if seg_len <? min_silence_len then Return []
  else
    let thresh :=
      (db_to_float silence_thresh * IZR (max_possible_amplitude seg))%R in
    let last_slice_start := seg_len - min_silence_len in
    let slice_starts := py_range (last_slice_start + 1) in
    silence_starts <- filterM (window_silent seg min_silence_len thresh) slice_starts ;;
    match silence_starts with
    | [] => Return []
    | prev_i :: rest => Return (combine_ranges min_silence_len rest prev_i prev_i)
    end.

(** The loop of [detect_nonsilent] over the silent ranges; returns the
    ranges collected and the last [prev_end_i]. *)
Fixpoint between (silent_ranges : list (Z * Z)) (prev_end_i : Z) : list (Z * Z) * Z :=
  match silent_ranges with
  | [] => ([], prev_end_i)
  | (start_i, end_i) :: rest =>
      let (l, last) := between rest end_i in
      ((prev_end_i, start_i) :: l, last)
  end.

(** [silence.detect_nonsilent(seg, min_silence_len, silence_thresh)] *)
Definition detect_nonsilent (seg : AudioSegment) (min_silence_len : Z)
    (silence_thresh : pyfloat) : pyresult (list (Z * Z)) :=
  silent_ranges <- detect_silence seg min_silence_len silence_thresh ;;
  let len_seg := len seg in
  match silent_ranges with
  | [] => Return [(0, len_seg)]
  | (s0, e0) :: _ =>
      if (s0 =? 0) && (e0 =? len_seg) then Return []
      else
        let (ranges, end_i) := between silent_ranges 0 in
        let nonsilent_ranges :=
          if negb (end_i =? len_seg) then ranges ++ [(end_i, len_seg)] else ranges in
        match nonsilent_ranges with
        | (0, 0) :: tl => Return tl
        | _ => Return nonsilent_ranges
        end
  end.

(** The [pairwise] loop of [split_on_silence]: where two neighbouring
    ranges overlap, both are moved to the middle of the overlap.  The
    loop updates the ranges in place; a range's start is settled by the
    pair with its predecessor and its end by the pair with its successor. *)
Fixpoint pairwise_from (range_i : Z * Z) (rest : list (Z * Z)) : list (Z * Z) :=
  match rest with
  | [] => [range_i]
  | range_ii :: rest' =>
      let last_end := snd range_i in
      let next_start := fst range_ii in
      if next_start <? last_end then
        let mid := (last_end + next_start) / 2 in
        (fst range_i, mid) :: pairwise_from (mid, snd range_ii) rest'
      else range_i :: pairwise_from range_ii rest'
  end.

Definition pairwise_fix (output_ranges : list (Z * Z)) : list (Z * Z) :=
  match output_ranges with
  | [] => []
  | range_i :: rest => pairwise_from range_i rest
  end.

(** The ranges [split_on_silence] slices the segment at:
    [(max(start, 0), min(end, len(seg)))]. *)
Definition split_ranges (seg : AudioSegment) (min_silence_len : Z)
    (silence_thresh : pyfloat) (keep_silence : Z) : pyresult (list (Z * Z)) :=
  nonsilent <- detect_nonsilent seg min_silence_len silence_thresh ;;
  let output_ranges :=
    map (fun r : Z * Z => (fst r - keep_silence, snd r + keep_silence)) nonsilent in
  Return (map (fun r : Z * Z => (Z.max (fst r) 0, Z.min (snd r) (len seg)))
              (pairwise_fix output_ranges)).

(** [silence.split_on_silence(seg, min_silence_len, silence_thresh, keep_silence)] *)
Definition split_on_silence (seg : AudioSegment) (min_silence_len : Z)
    (silence_thresh : pyfloat) (keep_silence : Z) : pyresult (list AudioSegment) :=
  ranges <- split_ranges seg min_silence_len silence_thresh keep_silence ;;
  mapM (fun r : Z * Z => getitem seg (fst r) (snd r)) ranges.

(** A segment as pydub builds them: a positive frame rate and channel
    count, a sample width of 1, 2 or 4 bytes and whole frames only. *)
Record well_formed (seg : AudioSegment) : Prop := {
  wf_rate : 0 < frame_rate seg;
  wf_channels : 0 < channels seg;
  wf_width : sample_width seg = 1 \/ sample_width seg = 2 \/ sample_width seg = 4;
  wf_frames : (Z.of_nat (List.length (data seg)) mod channels seg) = 0
}.

End Pydub.

(** ** main.py *)

Import Pydub.

Definition MIN_SILENCE_LEN : Z := 200.
Definition SILENCE_THRESH_OFFSET : R := (-16)%R.
Definition KEEP_SILENCE : Z := 0.
Definition SILENCE_MULTIPLIER : Z := 2.

(** What a run does besides returning: the lines it prints and the calls
    [process_audio] makes, in order. *)
Inductive event : Type :=
| Print (msg : string)
| Call (function : string).

(** The file system as main.py uses it: decoding a file and exporting a
    segment as mp3, either of which may raise. *)
Record World : Type := {
  from_file : string -> pyresult AudioSegment;
  export_mp3 : AudioSegment -> string -> pyresult unit
}.

(** A computation with a trace. *)
Definition io (A : Type) : Type := (list event * pyresult A)%type.

Definition io_ret {A : Type} (a : A) : io A := ([], Return a).

Definition io_bind {A B : Type} (m : io A) (k : A -> io B) : io B :=
  match m with
  | (t, Return a) => let (t', r) := k a in (t ++ t', r)
  | (t, Raise e) => (t, Raise e)
  end.

Notation "x <~ m ;; k" := (io_bind m (fun x => k))
  (at level 61, m at next level, right associativity).

Definition print (msg : string) : io unit := ([Print msg], Return tt).

Definition call {A : Type} (function : string) (m : pyresult A) : io A :=
  ([Call function], m).

Definition load_audio (w : World) (file_path : string) : io AudioSegment :=
  match from_file w file_path with
  | Return audio => ([Call "load_audio"], Return audio)
  | Raise e =>
      ([Call "load_audio";
        Print ("Error loading audio file '" ++ file_path ++ "': " ++ e)%string],
       Raise e)
  end.

Definition calculate_silence_threshold (audio : AudioSegment) (offset_db : R)
  : pyresult pyfloat :=
  Return (pyfloat_add (dBFS audio) (Fin offset_db)).

Definition split_audio_on_silence (audio : AudioSegment) (min_silence_len : Z)
    (silence_thresh : pyfloat) (keep_silence : Z) : pyresult (list AudioSegment) :=
  split_on_silence audio min_silence_len silence_thresh keep_silence.

(** The padding [process_chunk] appends to a chunk. *)
Definition silence_chunk (chunk : AudioSegment) (silence_multiplier : Z) : AudioSegment :=
  let chunk := normalize chunk in
  let chunk_length := len chunk in
  let silence_duration := chunk_length * silence_multiplier in
  silent silence_duration.

Definition process_chunk (chunk : AudioSegment) (silence_multiplier : Z)
  : pyresult AudioSegment :=
  let chunk := normalize chunk in
  let chunk_length := len chunk in
  let silence_duration := chunk_length * silence_multiplier in
  let silence_chunk := silent silence_duration in
  append chunk silence_chunk.

Definition process_chunks (chunks : list AudioSegment) (silence_multiplier : Z)
  : pyresult (list AudioSegment) :=
  mapM (fun chunk => process_chunk chunk silence_multiplier) chunks.

Fixpoint concatenate_from (final_audio : AudioSegment) (chunks : list AudioSegment)
  : pyresult AudioSegment :=
  match chunks with
  | [] => Return final_audio
  | chunk :: rest =>
      final_audio <- append final_audio chunk ;;
      concatenate_from final_audio rest
  end.

Definition concatenate_chunks (chunks : list AudioSegment) : pyresult AudioSegment :=
  concatenate_from empty chunks.

Definition export_audio (w : World) (audio : AudioSegment) (file_path : string) : io unit :=
  match export_mp3 w audio file_path with
  | Return _ =>
      ([Call "export_audio";
        Print ("Exported processed audio to '" ++ file_path ++ "'.")%string],
       Return tt)
  | Raise e =>
      ([Call "export_audio";
        Print ("Error exporting audio to '" ++ file_path ++ "': " ++ e)%string],
       Raise e)
  end.

Definition process_audio (w : World) (input_file output_file : string) : io unit :=
  audio <~ load_audio w input_file ;;
  silence_thresh <~ call "calculate_silence_threshold"
    (calculate_silence_threshold audio SILENCE_THRESH_OFFSET) ;;
  chunks <~ call "split_audio_on_silence"
    (split_audio_on_silence audio MIN_SILENCE_LEN silence_thresh KEEP_SILENCE) ;;
  match chunks with
  | [] => print "No chunks were created. Check the silence detection parameters."
  | _ =>
      processed_chunks <~ call "process_chunks"
        (process_chunks chunks SILENCE_MULTIPLIER) ;;
      final_audio <~ call "concatenate_chunks" (concatenate_chunks processed_chunks) ;;
      _ <~ export_audio w final_audio output_file ;;
      print "Processing complete."
  end.

(** ** Formats *)

Definition same_format (a b : AudioSegment) : Prop :=
  sample_width a = sample_width b /\
  frame_rate a = frame_rate b /\
  channels a = channels b.

(** ** Concrete segments used below *)

(** One millisecond of digital silence, stereo, 8000 Hz, 16-bit. *)
Definition chunk_8k_stereo : AudioSegment :=
  mkAudioSegment 2 8000 2 (repeat 0 16%nat).

(** Two frames of mono and one frame of stereo audio at 11025 Hz, and one
    frame of three-channel audio. *)
Definition chunk_mono : AudioSegment := mkAudioSegment 2 11025 1 [1; 2].
Definition chunk_stereo : AudioSegment := mkAudioSegment 2 11025 2 [3; 4].

(** One 16-bit sample at the largest representable value. *)
Definition chunk_peak : AudioSegment := mkAudioSegment 2 44100 1 [32767].

(** The factor [normalize] scales a non-silent segment by: the peak is
    brought to 0.1 dB below full scale. *)
Definition normalize_factor (seg : AudioSegment) : R :=
  (IZR (max_possible_amplitude seg) * Rpower 10 (- (1 / 10) / 20) / IZR (max seg))%R.

(** A 16-bit stereo segment at 44100 Hz with no samples at all. *)
Definition chunk_no_samples : AudioSegment := mkAudioSegment 2 44100 2 [].

(** Digital silence, mono 16-bit at 1000 Hz: 100 ms and 200 ms of it. *)
Definition short_silence : AudioSegment := mkAudioSegment 2 1000 1 (repeat 0 100%nat).
Definition long_silence : AudioSegment := mkAudioSegment 2 1000 1 (repeat 0 200%nat).

(** 200 ms of full-scale signal in the same format. *)
Definition loud_signal : AudioSegment := mkAudioSegment 2 1000 1 (repeat 32767 200%nat).

(** A file system in which every path decodes to [audio] and every export
    succeeds. *)
Definition world_of (audio : AudioSegment) : World :=
  {| from_file := fun _ => Return audio; export_mp3 := fun _ _ => Return tt |}.

(** 94 frames (about 8.5 ms) of mono 16-bit audio at 11025 Hz. *)
Definition chunk_94_frames : AudioSegment :=
  mkAudioSegment 2 11025 1 (repeat 1000 94%nat).

(** 99 frames of the same: the 9 ms slice between two millisecond offsets. *)
Definition chunk_99_frames : AudioSegment :=
  mkAudioSegment 2 11025 1 (repeat 1000 99%nat).

(** A segment holds a whole number of milliseconds to within one frame. *)
Definition millisecond_aligned (seg : AudioSegment) : Prop :=
  Z.abs (1000 * frame_count seg - frame_rate seg * len seg) <= 1000.

(** The sum of a quantity over a list of chunks. *)
Definition sumZ (f : AudioSegment -> Z) (l : list AudioSegment) : Z :=
  fold_right (fun c acc => f c + acc) 0 l.

(** All chunks of a list share one format. *)
Definition matching_formats (l : list AudioSegment) : Prop :=
  forall a b, In a l -> In b l -> same_format a b.

(** ** Predicates on lists of millisecond ranges *)

(** The windows a monadic test accepts, as a plain predicate. *)
Definition accepts {A : Type} (f : A -> pyresult bool) (a : A) : bool :=
  match f a with
  | Return true => true
  | _ => false
  end.

(** Strictly increasing, above [prev]. *)
Fixpoint increasing (prev : Z) (l : list Z) : Prop :=
  match l with
  | [] => True
  | i :: l' => prev < i /\ increasing i l'
  end.

(** Silent ranges: each non-empty and ending by [hi], each ending strictly
    before the next starts. *)
Fixpoint silent_chain (l : list (Z * Z)) (hi : Z) : Prop :=
  match l with
  | [] => True
  | r :: l' =>
      fst r <= snd r /\ snd r <= hi /\
      match l' with
      | [] => True
      | r' :: _ => snd r < fst r'
      end /\
      silent_chain l' hi
  end.

(** Ranges within [lo, hi], in order and without overlap: each starts at
    or after the end of the one before. *)
Fixpoint sorted_ranges (lo : Z) (l : list (Z * Z)) (hi : Z) : Prop :=
  match l with
  | [] => lo <= hi
  | r :: l' => lo <= fst r /\ fst r <= snd r /\ sorted_ranges (snd r) l' hi
  end.

Definition positive_range (r : Z * Z) : Prop := fst r < snd r.

(** An output range [o] against the non-silent range [n] it comes from:
    each end moved outward by at most [keep], within [0, total]. *)
Definition expanded_within (keep total : Z) (n o : Z * Z) : Prop :=
  fst n - keep <= fst o <= fst n /\
  snd n <= snd o <= snd n + keep /\
  0 <= fst o /\ snd o <= total.

(** Neighbouring output ranges do not overlap, and where expanding by
    [keep] on both sides would make them overlap, the silent gap between
    the two non-silent ranges is shared in halves (the odd millisecond
    going to the later range). *)
Fixpoint neighbours_split (keep : Z) (N O : list (Z * Z)) : Prop :=
  match N, O with
  | n1 :: N', o1 :: O' =>
      match N', O' with
      | n2 :: _, o2 :: _ =>
          snd o1 <= fst o2 /\
          (fst n2 - keep < snd n1 + keep ->
           let gap := fst n2 - snd n1 in
           snd o1 = snd n1 + gap / 2 /\ fst o2 = fst n2 - (gap - gap / 2))
      | _, _ => True
      end /\
      neighbours_split keep N' O'
  | _, _ => True
  end.

(** The total length of a list of ranges. *)
Definition total_length (l : list (Z * Z)) : Z :=
  fold_right (fun r acc => (snd r - fst r) + acc) 0 l.

(** ** Further predicates *)

(** A sample fits the signed range of its width. *)
Definition in_sample_range (width v : Z) : Prop :=
  Audioop.minval width <= v <= Audioop.maxval width.

(** Consecutive ranges are at least [gap] apart. *)
Fixpoint separated (gap : Z) (l : list (Z * Z)) : Prop :=
  match l with
  | [] => True
  | r1 :: l' =>
      match l' with
      | [] => True
      | r2 :: _ => snd r1 + gap <= fst r2
      end /\
      separated gap l'
  end.

(** The largest value of a format field over a list of chunks, starting
    from that of the empty segment. *)
Definition largest (f : AudioSegment -> Z) (chunks : list AudioSegment) : Z :=
  fold_left (fun m c => Z.max m (f c)) chunks 1.

(** The lines and calls of a run of [process_audio] that gets as far as
    exporting. *)
Definition trace_to_export : list event :=
  [Call "load_audio"; Call "calculate_silence_threshold";
   Call "split_audio_on_silence"; Call "process_chunks";
   Call "concatenate_chunks"; Call "export_audio"].

(** A processed chunk [p] against the chunk [c] it was made from. *)
Definition processed_from (silence_multiplier : Z) (c p : AudioSegment) : Prop :=
  process_chunk c silence_multiplier = Return p /\
  well_formed p /\
  channels p = channels c /\
  frame_rate p = Z.max (frame_rate c) 11025 /\
  sample_width p = Z.max (sample_width c) 2.

(** The threshold [process_audio] segments with. *)
Definition pipeline_threshold (audio : AudioSegment) : pyfloat :=
  pyfloat_add (dBFS audio) (Fin SILENCE_THRESH_OFFSET).

(** The run of [process_audio] that stops for want of chunks. *)
Definition trace_no_chunks : list event :=
  [Call "load_audio"; Call "calculate_silence_threshold";
   Call "split_audio_on_silence";
   Print "No chunks were created. Check the silence detection parameters."].

(** The run of [process_audio] from the export of [final_audio] on: the
    export either succeeds, and the run completes, or raises, and the run
    ends with the exception after the error line. *)
Definition export_outcome (w : World) (final_audio : AudioSegment)
    (output_file : string) : io unit :=
  match export_mp3 w final_audio output_file with
  | Return _ =>
      (trace_to_export ++
       [Print ("Exported processed audio to '" ++ output_file ++ "'.")%string;
        Print "Processing complete."],
       Return tt)
  | Raise e =>
      (trace_to_export ++
       [Print ("Error exporting audio to '" ++ output_file ++ "': " ++ e)%string],
       Raise e)
  end.

(** A file system in which no file can be decoded. *)
Definition world_unreadable : World :=
  {| from_file := fun _ => Raise "CouldntDecodeError";
     export_mp3 := fun _ _ => Return tt |}.

(** Ten milliseconds of mono 16-bit audio at 1000 Hz: two bursts of 3 ms
    around 4 ms of digital silence. *)
Definition two_bursts : AudioSegment :=
  mkAudioSegment 2 1000 1
    [20000; 20000; 20000; 0; 0; 0; 0; 20000; 20000; 20000].

(** * Properties *)

(** ** The error monad *)

Lemma bind_Return_inv {A B : Type} (m : pyresult A) (k : A -> pyresult B) (b : B) :
  bind m k = Return b -> exists a, m = Return a /\ k a = Return b.
Proof.
  destruct m as [a|e]; simpl; intros H; [eauto | discriminate].
Qed.

Lemma mapM_length {A B : Type} (f : A -> pyresult B) (l : list A) (l' : list B) :
  mapM f l = Return l' -> List.length l' = List.length l.
Proof.
  revert l'; induction l as [|a l IH]; simpl; intros l' H.
  - now inversion H.
  - destruct (f a) as [b|e]; simpl in H; [|discriminate].
    destruct (mapM f l) as [bs|e]; simpl in H; [|discriminate].
    inversion H; subst; simpl. now rewrite (IH bs eq_refl).
Qed.

Lemma mapM_total {A B : Type} (f : A -> pyresult B) (l : list A) :
  (forall a, In a l -> succeeds (f a)) -> succeeds (mapM f l).
Proof.
  induction l as [|a l IH]; simpl; intros H.
  - now exists [].
  - destruct (H a (or_introl eq_refl)) as [b Hb]. rewrite Hb; simpl.
    destruct IH as [bs Hbs]; [intros; apply H; now right|].
    rewrite Hbs; simpl. now exists (b :: bs).
Qed.

(** ** Format metadata through the pydub operations *)


Lemma normalize_format seg : same_format (normalize seg) seg.
Proof.
  unfold normalize, normalize_headroom.
  destruct (max seg =? 0); now repeat split.
Qed.

Lemma set_channels_format seg chans seg' :
  set_channels seg chans = Return seg' ->
  channels seg' = chans /\ frame_rate seg' = frame_rate seg /\
  sample_width seg' = sample_width seg.
Proof.
  unfold set_channels.
  destruct (chans =? channels seg) eqn:E0.
  - intros H; inversion H; subst. apply Z.eqb_eq in E0. now rewrite E0.
  - repeat match goal with
           | |- context [if ?b then _ else _] => destruct b
           end; intros H; inversion H; subst; now simpl.
Qed.

Lemma set_channels_same seg : set_channels seg (channels seg) = Return seg.
Proof. unfold set_channels. now rewrite Z.eqb_refl. Qed.

Lemma set_channels_mono_succeeds seg chans :
  channels seg = 1 -> 0 < chans -> succeeds (set_channels seg chans).
Proof.
  intros H1 Hc. unfold set_channels, succeeds. rewrite H1.
  destruct (chans =? 1); [eauto|].
  destruct (chans =? 2); simpl; [eauto|].
  destruct (chans <=? 0) eqn:E; [apply Z.leb_le in E; lia | eauto].
Qed.

Lemma set_frame_rate_format seg rate :
  frame_rate (set_frame_rate seg rate) = rate /\
  channels (set_frame_rate seg rate) = channels seg /\
  sample_width (set_frame_rate seg rate) = sample_width seg.
Proof.
  unfold set_frame_rate. destruct (rate =? frame_rate seg) eqn:E; simpl; auto.
  apply Z.eqb_eq in E. now rewrite E.
Qed.

Lemma set_sample_width_format seg width :
  sample_width (set_sample_width seg width) = width /\
  channels (set_sample_width seg width) = channels seg /\
  frame_rate (set_sample_width seg width) = frame_rate seg.
Proof.
  unfold set_sample_width. destruct (width =? sample_width seg) eqn:E; simpl; auto.
  apply Z.eqb_eq in E. now rewrite E.
Qed.

Lemma convert_format seg chans rate width seg' :
  convert seg chans rate width = Return seg' ->
  channels seg' = chans /\ frame_rate seg' = rate /\ sample_width seg' = width.
Proof.
  unfold convert. intros H. apply bind_Return_inv in H as (s1 & H1 & H2).
  inversion H2; subst; clear H2.
  apply set_channels_format in H1 as (Hc & _ & _).
  destruct (set_sample_width_format (set_frame_rate s1 rate) width) as (Hw & Hc' & Hr).
  destruct (set_frame_rate_format s1 rate) as (Hr' & Hc'' & _).
  repeat split; congruence.
Qed.

Lemma append_format seg1 seg2 out :
  append seg1 seg2 = Return out ->
  channels out = Z.max (channels seg1) (channels seg2) /\
  frame_rate out = Z.max (frame_rate seg1) (frame_rate seg2) /\
  sample_width out = Z.max (sample_width seg1) (sample_width seg2).
Proof.
  unfold append, sync. intros H.
  apply bind_Return_inv in H as (p & Hp & Hout).
  apply bind_Return_inv in Hp as (s1 & Hs1 & Hp).
  apply bind_Return_inv in Hp as (s2 & Hs2 & Hp).
  inversion Hp; subst; clear Hp. inversion Hout; subst; clear Hout. simpl.
  now apply convert_format in Hs1.
Qed.

(** Appending a mono segment never fails: the only conversion pydub
    refuses is between two different multi-channel layouts. *)
Lemma append_mono_succeeds seg1 seg2 :
  0 < channels seg1 -> channels seg2 = 1 -> succeeds (append seg1 seg2).
Proof.
  intros Hc H1. unfold append, sync, convert, succeeds.
  rewrite H1. replace (Z.max (channels seg1) 1) with (channels seg1) by lia.
  rewrite set_channels_same; simpl.
  destruct (set_channels_mono_succeeds seg2 (channels seg1) H1 Hc) as [s2 Hs2].
  rewrite Hs2; simpl. eauto.
Qed.

(** ** C1: the format of the padding and of the processed chunk *)

Lemma process_chunk_unfold chunk m :
  process_chunk chunk m = append (normalize chunk) (silence_chunk chunk m).
Proof. reflexivity. Qed.

(** C1, amended.  The padding is a zero-amplitude buffer in pydub's default
    format for silence (11025 Hz, mono, 2-byte samples) whatever the format
    of the input segment; appending brings both parts to the larger of the
    two formats, so the returned chunk keeps the input's channel count and
    has frame rate max(input, 11025) and sample width max(input, 2): the
    sample rate is preserved exactly when it is at least 11025 Hz. *)
Theorem C1_padding_and_chunk_format (chunk : AudioSegment) (silence_multiplier : Z) :
  well_formed chunk ->
  let pad := silence_chunk chunk silence_multiplier in
  (frame_rate pad = 11025 /\ channels pad = 1 /\ sample_width pad = 2 /\
   Forall (fun v => v = 0) (data pad)) /\
  exists out,
    process_chunk chunk silence_multiplier = Return out /\
    channels out = channels chunk /\
    frame_rate out = Z.max (frame_rate chunk) 11025 /\
    sample_width out = Z.max (sample_width chunk) 2.
Proof.
  intros Hwf pad. split.
  - repeat split; try reflexivity.
    unfold pad, silence_chunk, silent, silent_at; simpl.
    apply Forall_forall. intros v Hv. now apply repeat_spec in Hv.
  - rewrite process_chunk_unfold. fold pad.
    destruct (normalize_format chunk) as (Hw & Hr & Hc).
    destruct (append_mono_succeeds (normalize chunk) pad) as [out Hout].
    + rewrite Hc. apply Hwf.
    + reflexivity.
    + exists out. split; [exact Hout|].
      apply append_format in Hout as (Hoc & Hor & Hos).
      rewrite Hoc, Hor, Hos, Hw, Hr, Hc.
      change (channels pad) with 1. change (frame_rate pad) with 11025.
      change (sample_width pad) with 2.
      pose proof (wf_channels _ Hwf). repeat split; lia.
Qed.

Lemma chunk_8k_stereo_wf : well_formed chunk_8k_stereo.
Proof. split; simpl; [lia | lia | right; left; reflexivity | reflexivity]. Qed.

Lemma C1_padding_and_chunk_format_witness :
  let pad := silence_chunk chunk_8k_stereo 2 in
  (frame_rate pad = 11025 /\ channels pad = 1 /\ sample_width pad = 2 /\
   Forall (fun v => v = 0) (data pad)) /\
  exists out,
    process_chunk chunk_8k_stereo 2 = Return out /\
    channels out = channels chunk_8k_stereo /\
    frame_rate out = Z.max (frame_rate chunk_8k_stereo) 11025 /\
    sample_width out = Z.max (sample_width chunk_8k_stereo) 2.
Proof.
  apply (C1_padding_and_chunk_format chunk_8k_stereo 2).
  split; simpl; [lia | lia | right; left; reflexivity | reflexivity].
Defined.

(** C1 as stated fails: for a 1 ms stereo segment at 8000 Hz the padding is
    mono at 11025 Hz, and the chunk returned is at 11025 Hz. *)
Lemma C1_counterexample :
  let pad := silence_chunk chunk_8k_stereo 2 in
  frame_rate pad <> frame_rate chunk_8k_stereo /\
  channels pad <> channels chunk_8k_stereo /\
  exists out,
    process_chunk chunk_8k_stereo 2 = Return out /\
    frame_rate out <> frame_rate chunk_8k_stereo.
Proof.
  intros pad. repeat split.
  - intros H; vm_compute in H; discriminate.
  - intros H; vm_compute in H; discriminate.
  - eexists. split; [vm_compute; reflexivity|].
    intros H; vm_compute in H; discriminate.
Qed.

(** ** C4: the silence threshold *)

Lemma max_possible_amplitude_pos seg :
  well_formed seg -> 0 < max_possible_amplitude seg.
Proof.
  intros Hwf. unfold max_possible_amplitude.
  destruct (wf_width _ Hwf) as [H|[H|H]]; rewrite H; reflexivity.
Qed.

(** C4, amended.  [calculate_silence_threshold] never raises, and no
    InvalidBufferError exists: for a buffer with zero samples, as for every
    buffer whose RMS is 0, it returns minus infinity; for every buffer with
    a non-zero RMS it returns the RMS loudness in decibels relative to full
    scale, 20 log10 (rms / max_possible_amplitude), plus [offset_db]. *)
Theorem C4_threshold_total (audio : AudioSegment) (offset_db : R) :
  well_formed audio ->
  (forall e, ~ raises (calculate_silence_threshold audio offset_db) e) /\
  (data audio = [] ->
   calculate_silence_threshold audio offset_db = Return NegInf) /\
  (rms audio = 0 ->
   calculate_silence_threshold audio offset_db = Return NegInf) /\
  (rms audio <> 0 ->
   calculate_silence_threshold audio offset_db =
   Return (Fin (20 * (ln (IZR (rms audio) / IZR (max_possible_amplitude audio)) / ln 10)
                + offset_db)%R)).
Proof.
  intros Hwf. unfold calculate_silence_threshold, raises.
  split; [intros e H; discriminate|].
  split; [|split].
  - intros Hd. unfold dBFS, rms. rewrite Hd. reflexivity.
  - intros Hr. unfold dBFS. rewrite Hr. reflexivity.
  - intros Hr. unfold dBFS.
    destruct (rms audio =? 0) eqn:E; [apply Z.eqb_eq in E; contradiction|].
    unfold ratio_to_db.
    destruct (Req_EM_T _ 0) as [H0|H0]; [|reflexivity].
    exfalso.
    pose proof (max_possible_amplitude_pos audio Hwf) as Hm.
    apply Rmult_integral in H0 as [H0|H0].
    + apply eq_IZR_R0 in H0. contradiction.
    + apply (Rinv_neq_0_compat (IZR (max_possible_amplitude audio))); [|exact H0].
      intros H1. apply eq_IZR_R0 in H1. lia.
Qed.

Lemma C4_threshold_total_witness :
  (forall e, ~ raises (calculate_silence_threshold empty SILENCE_THRESH_OFFSET) e) /\
  calculate_silence_threshold empty SILENCE_THRESH_OFFSET = Return NegInf.
Proof.
  assert (Hwf : well_formed empty).
  { split; simpl; [lia | lia | left; reflexivity | reflexivity]. }
  destruct (C4_threshold_total empty SILENCE_THRESH_OFFSET Hwf) as (H1 & H2 & _).
  split; [exact H1 | exact (H2 eq_refl)].
Defined.

(** C4 as stated fails: on the buffer with zero samples nothing is raised,
    the threshold returned is minus infinity. *)
Lemma C4_counterexample :
  data empty = [] /\
  ~ raises (calculate_silence_threshold empty SILENCE_THRESH_OFFSET) "InvalidBufferError" /\
  calculate_silence_threshold empty SILENCE_THRESH_OFFSET = Return NegInf.
Proof.
  split; [reflexivity|]. split; [intros H; discriminate | reflexivity].
Qed.

(** ** Appending segments *)

Lemma append_same_format a b :
  same_format a b -> append a b = Return (spawn a (data a ++ data b)).
Proof.
  intros (Hw & Hr & Hc). unfold append, sync, convert.
  rewrite <- Hw, <- Hr, <- Hc, !Z.max_id.
  rewrite (set_channels_same a). simpl.
  rewrite Hc at 1. rewrite (set_channels_same b). simpl.
  unfold set_frame_rate. rewrite Z.eqb_refl.
  rewrite Hr at 1. rewrite Z.eqb_refl.
  unfold set_sample_width. rewrite Z.eqb_refl.
  rewrite Hw at 1. rewrite Z.eqb_refl. reflexivity.
Qed.

Lemma set_channels_nil seg chans seg' :
  data seg = [] -> set_channels seg chans = Return seg' -> data seg' = [].
Proof.
  intros Hd. unfold set_channels, frame_count. rewrite Hd.
  repeat match goal with
         | |- context [if ?b then _ else _] => destruct b
         end; intros H; inversion H; subst; simpl; try assumption; reflexivity.
Qed.

Lemma set_frame_rate_nil seg rate :
  data seg = [] -> data (set_frame_rate seg rate) = [].
Proof.
  intros Hd. unfold set_frame_rate. rewrite Hd.
  destruct (rate =? frame_rate seg); simpl; auto.
Qed.

Lemma set_sample_width_nil seg width :
  data seg = [] -> data (set_sample_width seg width) = [].
Proof.
  intros Hd. unfold set_sample_width.
  destruct (width =? sample_width seg); simpl; [assumption | now rewrite Hd].
Qed.

Lemma convert_same seg :
  convert seg (channels seg) (frame_rate seg) (sample_width seg) = Return seg.
Proof.
  unfold convert. rewrite set_channels_same. simpl.
  unfold set_frame_rate. rewrite Z.eqb_refl.
  unfold set_sample_width. rewrite Z.eqb_refl. reflexivity.
Qed.

Lemma convert_nil seg chans rate width seg' :
  data seg = [] -> convert seg chans rate width = Return seg' -> data seg' = [].
Proof.
  intros Hd H. unfold convert in H.
  apply bind_Return_inv in H as (s1 & H1 & H2). inversion H2; subst.
  apply set_sample_width_nil, set_frame_rate_nil.
  exact (set_channels_nil _ _ _ Hd H1).
Qed.

(** The first step of [concatenate_chunks]: the empty segment takes the
    format of the chunk appended to it. *)
Lemma append_empty b : well_formed b -> append empty b = Return b.
Proof.
  intros Hwf. pose proof (wf_rate _ Hwf) as Hr. pose proof (wf_channels _ Hwf) as Hc.
  assert (Hw : 1 <= sample_width b) by (destruct (wf_width _ Hwf) as [H|[H|H]]; lia).
  unfold append, sync.
  change (channels empty) with 1. change (frame_rate empty) with 1.
  change (sample_width empty) with 1.
  replace (Z.max 1 (channels b)) with (channels b) by lia.
  replace (Z.max 1 (frame_rate b)) with (frame_rate b) by lia.
  replace (Z.max 1 (sample_width b)) with (sample_width b) by lia.
  rewrite convert_same.
  destruct (convert empty (channels b) (frame_rate b) (sample_width b)) as [s1|e] eqn:E.
  - simpl. pose proof (convert_nil empty _ _ _ _ eq_refl E) as Hd.
    apply convert_format in E as (Ec & Er & Ew).
    unfold spawn. rewrite Hd, Ec, Er, Ew. simpl. now destruct b.
  - exfalso. unfold convert in E.
    destruct (set_channels_mono_succeeds empty (channels b) eq_refl Hc) as [s1 Hs1].
    rewrite Hs1 in E. discriminate.
Qed.





Lemma concatenate_from_same_format chunks : forall acc,
  (forall c, In c chunks -> same_format acc c) ->
  concatenate_from acc chunks =
  Return (spawn acc (data acc ++ List.concat (map data chunks))).
Proof.
  induction chunks as [|c chunks IH]; simpl; intros acc H.
  - rewrite app_nil_r. now destruct acc.
  - rewrite (append_same_format acc c) by (apply H; now left). simpl.
    rewrite IH.
    + unfold spawn; simpl. now rewrite app_assoc.
    + intros c' Hc'. apply (H c'). now right.
Qed.

Lemma concatenate_chunks_matching c chunks :
  well_formed c -> matching_formats (c :: chunks) ->
  concatenate_chunks (c :: chunks) =
  Return (spawn c (List.concat (map data (c :: chunks)))).
Proof.
  intros Hwf Hm. unfold concatenate_chunks. simpl.
  rewrite (append_empty c Hwf). simpl.
  apply concatenate_from_same_format.
  intros c' Hc'. apply Hm; [now left | now right].
Qed.


(** ** C5: errors of [concatenate_chunks] *)




(** ** C9: what [concatenate_chunks] returns *)

Lemma frame_count_concat (c0 : AudioSegment) (chunks : list AudioSegment) :
  0 < channels c0 ->
  (forall c, In c chunks -> well_formed c /\ channels c = channels c0) ->
  Z.of_nat (List.length (List.concat (map data chunks))) / channels c0 =
  sumZ frame_count chunks /\
  Z.of_nat (List.length (List.concat (map data chunks))) mod channels c0 = 0.
Proof.
  intros Hc0. induction chunks as [|c chunks IH]; simpl; intros H.
  - split; [apply Zdiv_0_l | apply Zmod_0_l].
  - destruct (H c (or_introl eq_refl)) as (Hwf & Hc).
    destruct IH as (IH1 & IH2); [intros c' Hc'; apply H; now right|].
    rewrite length_app, Nat2Z.inj_add.
    pose proof (wf_frames _ Hwf) as Hm. rewrite Hc in Hm.
    unfold frame_count at 1. rewrite Hc.
    apply Z.mod_divide in Hm; [|lia]. destruct Hm as [q Hq]. rewrite Hq.
    split.
    + rewrite Z.div_add_l by lia. rewrite Z.div_mul by lia. now rewrite IH1.
    + rewrite Z.add_comm, Z.mod_add by lia. exact IH2.
Qed.




(** ** C3: normalization *)

Lemma ln_10_pos : (0 < ln 10)%R.
Proof. rewrite <- ln_1. apply ln_increasing; lra. Qed.

Lemma ln_10_half : (/ 2 < ln 10)%R.
Proof.
  apply Rlt_trans with (ln 2); [exact ln_lt_2|].
  apply ln_increasing; lra.
Qed.

Lemma db_roundtrip (x : R) : (0 < x)%R -> db_to_float (ratio_to_db x) = x.
Proof.
  intros Hx. unfold ratio_to_db.
  destruct (Req_EM_T x 0) as [H0|H0]; [lra|].
  unfold db_to_float, Rpower.
  replace (20 * (ln x / ln 10) / 20 * ln 10)%R with (ln x).
  - now apply exp_ln.
  - pose proof ln_10_pos. field. lra.
Qed.

Lemma max_fold_nonneg (l : list Z) : forall m, 0 <= m ->
  0 <= fold_left (fun m v => Z.max m (Z.abs v)) l m.
Proof.
  induction l as [|v l IH]; simpl; intros m Hm; [exact Hm|].
  apply IH. lia.
Qed.

Lemma headroom_lt : (Rpower 10 (- (1 / 10) / 20) < 799 / 800)%R.
Proof.
  unfold Rpower.
  replace (- (1 / 10) / 20 * ln 10)%R with (- (ln 10 / 200))%R by field.
  rewrite exp_Ropp.
  pose proof ln_10_half as Hl.
  assert (He : (1 + ln 10 / 200 < exp (ln 10 / 200))%R) by (apply exp_ineq1; lra).
  assert (Hp : (0 < exp (ln 10 / 200))%R) by apply exp_pos.
  apply Rmult_lt_reg_r with (exp (ln 10 / 200)); [exact Hp|].
  rewrite Rinv_l by lra. lra.
Qed.

Lemma headroom_pos : (0 < Rpower 10 (- (1 / 10) / 20))%R.
Proof. unfold Rpower. apply exp_pos. Qed.

(** A non-silent segment is rescaled by [normalize_factor]. *)
Lemma normalize_gain seg :
  well_formed seg -> max seg <> 0 ->
  normalize seg =
  spawn seg (Audioop.mul (data seg) (sample_width seg) (normalize_factor seg)).
Proof.
  intros Hwf Hm. unfold normalize, normalize_headroom.
  destruct (max seg =? 0) eqn:E; [apply Z.eqb_eq in E; contradiction|].
  unfold apply_gain. f_equal. f_equal.
  replace (db_to_float (Fin (- (1 / 10)))) with (Rpower 10 (- (1 / 10) / 20)) by reflexivity.
  apply db_roundtrip.
  assert (H0 : 0 < max seg).
  { pose proof (max_fold_nonneg (data seg) 0 (Z.le_refl 0)) as H.
    unfold max, Audioop.max in *. lia. }
  pose proof (max_possible_amplitude_pos seg Hwf) as Ha.
  apply IZR_lt in H0, Ha. pose proof headroom_pos.
  apply Rdiv_lt_0_compat; [apply Rmult_lt_0_compat|]; assumption.
Qed.

(** C3, amended.  A fully silent buffer (peak 0) is returned unchanged by
    the normalization step, without error, and normalizing it again changes
    nothing.  Every other buffer is rescaled, towards a peak 0.1 dB below
    full scale: each sample is multiplied by
    max_possible_amplitude * 10^(-0.1/20) / peak, clipped and rounded down;
    a buffer whose peak is already at the maximum is therefore attenuated,
    not left unchanged. *)
Theorem C3_normalize_silent_or_scaled (seg : AudioSegment) :
  well_formed seg ->
  (max seg = 0 ->
   normalize seg = seg /\ normalize (normalize seg) = normalize seg) /\
  (max seg <> 0 ->
   normalize seg =
   spawn seg (Audioop.mul (data seg) (sample_width seg) (normalize_factor seg))).
Proof.
  intros Hwf. split.
  - intros H0.
    assert (H : normalize seg = seg).
    { unfold normalize, normalize_headroom. now rewrite H0. }
    now rewrite !H.
  - now apply normalize_gain.
Qed.

Lemma chunk_peak_wf : well_formed chunk_peak.
Proof. split; simpl; [lia | lia | right; left; reflexivity | reflexivity]. Qed.

Lemma C3_normalize_silent_or_scaled_witness :
  normalize chunk_8k_stereo = chunk_8k_stereo /\
  normalize chunk_peak =
  spawn chunk_peak
    (Audioop.mul (data chunk_peak) (sample_width chunk_peak) (normalize_factor chunk_peak)).
Proof.
  split.
  - apply (C3_normalize_silent_or_scaled chunk_8k_stereo chunk_8k_stereo_wf).
    reflexivity.
  - apply (C3_normalize_silent_or_scaled chunk_peak chunk_peak_wf).
    discriminate.
Defined.

(** C3 as stated fails: the 16-bit buffer holding the single sample 32767,
    whose peak is the largest representable value, is changed by the
    normalization step (the sample drops below 32767). *)
Lemma C3_counterexample :
  max chunk_peak = Audioop.maxval (sample_width chunk_peak) /\
  normalize chunk_peak <> chunk_peak.
Proof.
  split; [reflexivity|].
  rewrite (normalize_gain chunk_peak chunk_peak_wf) by discriminate.
  intros H. apply (f_equal data) in H. simpl in H.
  injection H as H.
  assert (Hv : (IZR 32767 * normalize_factor chunk_peak < 32767)%R).
  { unfold normalize_factor.
    change (max chunk_peak) with 32767. change (max_possible_amplitude chunk_peak) with 32768.
    pose proof headroom_lt. pose proof headroom_pos. field_simplify. lra. }
  assert (Hp : (0 < IZR 32767 * normalize_factor chunk_peak)%R).
  { unfold normalize_factor.
    change (max chunk_peak) with 32767. change (max_possible_amplitude chunk_peak) with 32768.
    pose proof headroom_pos. field_simplify. lra. }
  unfold Audioop.fbound in H.
  change (Audioop.maxval 2) with 32767 in H. change (Audioop.minval 2) with (-32768) in H.
  destruct (Rlt_dec _ _) as [H1|H1] in H; [lra|].
  destruct (Rlt_dec _ _) as [H2|H2] in H; [lra|].
  pose proof (Zfloor_bound (IZR 32767 * normalize_factor chunk_peak)) as (Hb & _).
  rewrite H in Hb. lra.
Qed.

(** ** Lengths and slices *)

Lemma py_round_div_bounds (a b : Z) :
  0 <= a -> 0 < b ->
  a / b <= py_round_div a b <= a / b + 1 /\
  2 * a - b <= 2 * b * py_round_div a b <= 2 * a + b.
Proof.
  intros Ha Hb. unfold py_round_div.
  pose proof (Z.div_mod a b ltac:(lia)) as Hdm.
  pose proof (Z.mod_pos_bound a b Hb) as Hm.
  destruct (2 * (a mod b) <? b) eqn:E1; [apply Z.ltb_lt in E1; split; nia|].
  apply Z.ltb_ge in E1.
  destruct (b <? 2 * (a mod b)) eqn:E2; [apply Z.ltb_lt in E2; split; nia|].
  apply Z.ltb_ge in E2.
  destruct (Z.even (a / b)); split; nia.
Qed.

Lemma frame_count_nonneg seg : well_formed seg -> 0 <= frame_count seg.
Proof.
  intros Hwf. unfold frame_count. apply Z.div_pos; [lia | apply Hwf].
Qed.

Lemma frame_count_exact seg :
  well_formed seg -> Z.of_nat (List.length (data seg)) = frame_count seg * channels seg.
Proof.
  intros Hwf. unfold frame_count.
  pose proof (wf_frames _ Hwf) as Hm. pose proof (wf_channels _ Hwf) as Hc.
  pose proof (Z.div_mod (Z.of_nat (List.length (data seg))) (channels seg) ltac:(lia)).
  nia.
Qed.

Lemma len_bounds seg :
  well_formed seg ->
  0 <= len seg /\
  2 * 1000 * frame_count seg - frame_rate seg <= 2 * frame_rate seg * len seg
    <= 2 * 1000 * frame_count seg + frame_rate seg.
Proof.
  intros Hwf. pose proof (frame_count_nonneg seg Hwf) as Hf.
  pose proof (wf_rate _ Hwf) as Hr. unfold len.
  destruct (py_round_div_bounds (1000 * frame_count seg) (frame_rate seg)) as (H1 & H2);
    [lia | lia |].
  assert (0 <= 1000 * frame_count seg / frame_rate seg) by (apply Z.div_pos; lia).
  split; lia.
Qed.

Lemma parse_position_nonneg seg val :
  0 <= val -> 0 <= frame_rate seg ->
  parse_position seg val = val * frame_rate seg / 1000 /\ 0 <= parse_position seg val.
Proof.
  intros Hv Hr. unfold parse_position.
  destruct (val <? 0) eqn:E; [apply Z.ltb_lt in E; lia|].
  rewrite Z.quot_div_nonneg by nia. split; [reflexivity|].
  apply Z.div_pos; nia.
Qed.

Lemma py_slice_length {A : Type} (l : list A) (start stop : Z) :
  0 <= start -> 0 <= stop ->
  Z.of_nat (List.length (py_slice l start stop)) =
  Z.max 0 (Z.min stop (Z.of_nat (List.length l)) - Z.min start (Z.of_nat (List.length l))).
Proof.
  intros Hs He. unfold py_slice, py_index.
  destruct (start <? 0) eqn:E1; [apply Z.ltb_lt in E1; lia|].
  destruct (stop <? 0) eqn:E2; [apply Z.ltb_lt in E2; lia|].
  rewrite length_firstn, length_skipn. lia.
Qed.

(** Slicing a well-formed segment between two non-negative offsets never
    raises: fewer than 2 ms of frames can be missing at the end. *)
Lemma getitem_succeeds seg start stop :
  well_formed seg -> 0 <= start -> 0 <= stop -> succeeds (getitem seg start stop).
Proof.
  intros Hwf Hs He.
  destruct (len_bounds seg Hwf) as (Hl & Hlo & Hhi).
  pose proof (wf_rate _ Hwf) as Hr. pose proof (wf_channels _ Hwf) as Hc.
  pose proof (frame_count_exact seg Hwf) as Hn.
  unfold getitem, succeeds.
  destruct (parse_position_nonneg seg (Z.min start (len seg))) as (Ps & Ps0); [lia|lia|].
  destruct (parse_position_nonneg seg (Z.min stop (len seg))) as (Pe & Pe0); [lia|lia|].
  set (ps := parse_position seg (Z.min start (len seg))) in *.
  set (pe := parse_position seg (Z.min stop (len seg))) in *.
  set (d := py_slice (data seg) (ps * channels seg) (pe * channels seg)).
  assert (Hd : Z.of_nat (List.length d) =
               Z.max 0 (Z.min (pe * channels seg) (frame_count seg * channels seg)
                        - Z.min (ps * channels seg) (frame_count seg * channels seg))).
  { unfold d. rewrite py_slice_length by nia. now rewrite Hn. }
  set (missing := (pe * channels seg - ps * channels seg - Z.of_nat (List.length d))
                    / channels seg).
  destruct (missing =? 0); [eauto|].
  destruct (2 * frame_rate seg <? 1000 * missing) eqn:E; [|eauto].
  exfalso. apply Z.ltb_lt in E.
  assert (Hpe : 1000 * pe <= Z.min stop (len seg) * frame_rate seg).
  { rewrite Pe. apply Z.mul_div_le. lia. }
  assert (Hm : missing <= Z.max 0 (pe - frame_count seg)).
  { unfold missing. apply Z.div_le_upper_bound; [lia|]. nia. }
  nia.
Qed.

(** ** Silence detection *)

Lemma filterM_filter {A : Type} (f : A -> pyresult bool) (l : list A) :
  (forall a, In a l -> succeeds (f a)) ->
  filterM f l = Return (filter (accepts f) l).
Proof.
  induction l as [|a l IH]; simpl; intros H; [reflexivity|].
  destruct (H a (or_introl eq_refl)) as [b Hb].
  rewrite IH by (intros; apply H; now right).
  assert (Ha : accepts f a = b) by (unfold accepts; rewrite Hb; now destruct b).
  rewrite Hb, Ha. reflexivity.
Qed.

Lemma py_range_In (n i : Z) : In i (py_range n) -> 0 <= i < n.
Proof.
  unfold py_range. rewrite in_map_iff. intros (k & <- & Hk).
  apply in_seq in Hk. lia.
Qed.

Lemma filter_seq_increasing (g : Z -> bool) (k : nat) : forall (a : nat) (lo : Z),
  lo < Z.of_nat a ->
  increasing lo (filter g (map Z.of_nat (seq a k))).
Proof.
  induction k as [|k IH]; simpl; intros a lo Hlo; [exact I|].
  destruct (g (Z.of_nat a)); simpl.
  - split; [exact Hlo|]. apply IH. lia.
  - apply IH. lia.
Qed.

Lemma filter_all {A : Type} (g : A -> bool) (l : list A) :
  (forall a, In a l -> g a = true) -> filter g l = l.
Proof.
  induction l as [|a l IH]; simpl; intros H; [reflexivity|].
  rewrite (H a (or_introl eq_refl)). f_equal. apply IH. intros; apply H; now right.
Qed.

Lemma filter_none {A : Type} (g : A -> bool) (l : list A) :
  (forall a, In a l -> g a = false) -> filter g l = [].
Proof.
  induction l as [|a l IH]; simpl; intros H; [reflexivity|].
  rewrite (H a (or_introl eq_refl)). apply IH. intros; apply H; now right.
Qed.

Lemma combine_ranges_head msl starts prev cur :
  exists b tl, combine_ranges msl starts prev cur = (cur, b) :: tl.
Proof.
  revert prev cur. induction starts as [|i starts IH]; simpl; intros prev cur.
  - eauto.
  - destruct (negb (i =? prev + 1) && (prev + msl <? i)); [eauto | apply IH].
Qed.

Lemma combine_ranges_chain msl hi starts : forall prev cur,
  0 <= msl -> cur <= prev -> prev + msl <= hi ->
  increasing prev starts -> Forall (fun i => i + msl <= hi) starts ->
  silent_chain (combine_ranges msl starts prev cur) hi.
Proof.
  induction starts as [|i starts IH]; simpl; intros prev cur Hm Hc Hp Hinc Hall.
  - repeat split; simpl; lia.
  - destruct Hinc as (Hlt & Hinc). inversion Hall as [|? ? Hi Hall']; subst.
    destruct (negb (i =? prev + 1) && (prev + msl <? i)) eqn:E.
    + apply andb_true_iff in E as (_ & E). apply Z.ltb_lt in E.
      simpl. repeat split; try lia.
      * destruct (combine_ranges_head msl starts i i) as (b & tl & ->). simpl. lia.
      * apply IH; auto; lia.
    + apply IH; auto; lia.
Qed.

(** When every window is silent the silent ranges collapse into one. *)
Lemma combine_ranges_continuous msl (k : nat) : forall (a : nat) (cur : Z),
  combine_ranges msl (map Z.of_nat (seq (S a) k)) (Z.of_nat a) cur =
  [(cur, Z.of_nat (a + k) + msl)].
Proof.
  induction k as [|k IH]; intros a cur.
  - simpl. now rewrite Nat.add_0_r.
  - cbn [seq map combine_ranges].
    assert (E : (Z.of_nat (S a) =? Z.of_nat a + 1) = true) by (apply Z.eqb_eq; lia).
    rewrite E. cbn [negb andb]. rewrite IH.
    replace (a + S k)%nat with (S a + k)%nat by lia. reflexivity.
Qed.

Lemma window_silent_succeeds seg msl thresh i :
  well_formed seg -> 0 <= msl -> 0 <= i -> succeeds (window_silent seg msl thresh i).
Proof.
  intros Hwf Hm Hi. unfold window_silent.
  destruct (getitem_succeeds seg i (i + msl) Hwf Hi ltac:(lia)) as [s Hs].
  rewrite Hs. simpl. eexists; reflexivity.
Qed.

(** On a well-formed segment no window slice raises, and [detect_silence]
    is a plain filter over the window starts. *)
Lemma detect_silence_unfold seg msl thr :
  well_formed seg -> 0 <= msl -> (len seg <? msl) = false ->
  detect_silence seg msl thr =
  match filter (accepts (window_silent seg msl
                  (db_to_float thr * IZR (max_possible_amplitude seg))%R))
               (py_range (len seg - msl + 1)) with
  | [] => Return []
  | prev_i :: rest => Return (combine_ranges msl rest prev_i prev_i)
  end.
Proof.
  intros Hwf Hm Hl. unfold detect_silence. rewrite Hl.
  rewrite filterM_filter; [reflexivity|].
  intros i Hi. apply py_range_In in Hi. apply window_silent_succeeds; auto; lia.
Qed.

Lemma detect_silence_spec seg msl thr :
  well_formed seg -> 0 <= msl ->
  exists S,
    detect_silence seg msl thr = Return S /\
    silent_chain S (len seg) /\
    match S with [] => True | r :: _ => 0 <= fst r end.
Proof.
  intros Hwf Hm. destruct (len seg <? msl) eqn:Hl.
  - exists []. unfold detect_silence. rewrite Hl. simpl. auto.
  - rewrite detect_silence_unfold by assumption.
    apply Z.ltb_ge in Hl.
    set (g := accepts _).
    assert (Hinc : increasing (-1) (filter g (py_range (len seg - msl + 1)))).
    { unfold py_range. apply filter_seq_increasing. simpl. lia. }
    assert (Hall : Forall (fun i => i + msl <= len seg)
                     (filter g (py_range (len seg - msl + 1)))).
    { apply Forall_forall. intros i Hi. apply filter_In in Hi as (Hi & _).
      apply py_range_In in Hi. lia. }
    destruct (filter g (py_range (len seg - msl + 1))) as [|prev_i rest].
    + exists []. simpl. auto.
    + exists (combine_ranges msl rest prev_i prev_i).
      destruct Hinc as (H0 & Hinc). inversion Hall; subst.
      split; [reflexivity|]. split.
      * apply combine_ranges_chain; auto; lia.
      * destruct (combine_ranges_head msl rest prev_i prev_i) as (b & tl & ->).
        simpl. lia.
Qed.

Lemma sorted_ranges_lower lo lo' l hi :
  sorted_ranges lo l hi -> lo' <= lo -> sorted_ranges lo' l hi.
Proof.
  destruct l as [|r l]; simpl; intros H Hlo; [lia|].
  destruct H as (H1 & H2 & H3). repeat split; auto; lia.
Qed.

Lemma sorted_ranges_bounds l : forall lo hi, sorted_ranges lo l hi -> lo <= hi.
Proof.
  induction l as [|r l IH]; simpl; intros lo hi H; [exact H|].
  destruct H as (H1 & H2 & H3). apply IH in H3. lia.
Qed.

Lemma sorted_ranges_snoc l : forall lo mid hi,
  sorted_ranges lo l mid -> mid <= hi -> sorted_ranges lo (l ++ [(mid, hi)]) hi.
Proof.
  induction l as [|r l IH]; simpl; intros lo mid hi H Hm.
  - repeat split; lia.
  - destruct H as (H1 & H2 & H3). repeat split; auto.
Qed.

Lemma sorted_ranges_upper l : forall lo mid hi,
  sorted_ranges lo l mid -> mid <= hi -> sorted_ranges lo l hi.
Proof.
  induction l as [|r l IH]; simpl; intros lo mid hi H Hm; [lia|].
  destruct H as (H1 & H2 & H3). repeat split; eauto.
Qed.

Lemma between_spec hi S : forall a b L last,
  silent_chain ((a, b) :: S) hi ->
  between S b = (L, last) ->
  sorted_ranges b L last /\ Forall positive_range L /\ b <= last <= hi.
Proof.
  induction S as [|[a' b'] S IH]; intros a b L last Hc HB.
  - simpl in HB. inversion HB; subst. simpl in Hc. simpl. repeat split; auto; lia.
  - simpl in HB. destruct (between S b') as [L' last'] eqn:EB.
    inversion HB; subst; clear HB.
    destruct Hc as (H1 & H2 & H3 & Hc). simpl in H1, H2, H3.
    destruct (IH a' b' L' last Hc EB) as (Hs & Hp & Hl).
    pose proof Hc as (H1' & _). simpl in H1'.
    simpl. repeat split; try lia.
    + apply sorted_ranges_lower with b'; [exact Hs | lia].
    + constructor; [unfold positive_range; simpl; lia | exact Hp].
Qed.

(** The ranges [detect_nonsilent] returns lie within the segment, in order
    and without overlap; each has positive length unless the segment
    itself has length 0. *)
Lemma detect_nonsilent_spec seg msl thr :
  well_formed seg -> 0 <= msl ->
  exists N,
    detect_nonsilent seg msl thr = Return N /\
    sorted_ranges 0 N (len seg) /\
    (0 < len seg -> Forall positive_range N).
Proof.
  intros Hwf Hm.
  destruct (detect_silence_spec seg msl thr Hwf Hm) as (S & HS & Hchain & Hhead).
  destruct (len_bounds seg Hwf) as (Hlen & _).
  unfold detect_nonsilent. rewrite HS. simpl.
  destruct S as [|[s0 e0] S].
  - exists [(0, len seg)]. split; [reflexivity|]. split.
    + simpl. lia.
    + intros Hpos. constructor; [exact Hpos | constructor].
  - destruct ((s0 =? 0) && (e0 =? len seg)).
    + exists []. split; [reflexivity|]. split; [simpl; lia | constructor].
    + simpl in Hhead. simpl between.
      destruct (between S e0) as [L last] eqn:EB.
      destruct (between_spec (len seg) S s0 e0 L last Hchain EB) as (Hs & Hp & Hl).
      pose proof Hchain as (Hse & _). simpl in Hse.
      set (N := if negb (last =? len seg) then ((0, s0) :: L) ++ [(last, len seg)]
                else (0, s0) :: L).
      assert (HN : sorted_ranges 0 N (len seg) /\ Forall positive_range (tl N)).
      { unfold N. destruct (last =? len seg) eqn:E; simpl.
        - apply Z.eqb_eq in E. subst last. repeat split; try lia; auto.
          apply sorted_ranges_lower with e0; [exact Hs | lia].
        - apply Z.eqb_neq in E. repeat split; try lia.
          + apply sorted_ranges_snoc; [|lia].
            apply sorted_ranges_lower with e0; [exact Hs | lia].
          + apply Forall_app. split; [exact Hp|].
            constructor; [unfold positive_range; simpl; lia | constructor]. }
      assert (Hhd : exists tlN, N = (0, s0) :: tlN).
      { unfold N. destruct (negb (last =? len seg)); simpl; eauto. }
      destruct Hhd as (tlN & HeqN). fold N. rewrite HeqN in *.
      destruct HN as (HNs & HNp). simpl in HNp.
      destruct s0 as [|p|p]; [| |lia].
      * exists tlN. split; [reflexivity|]. split; [|intros _; exact HNp].
        simpl in HNs. apply HNs.
      * exists ((0, Z.pos p) :: tlN). split; [reflexivity|]. split; [exact HNs|].
        intros _. constructor; [unfold positive_range; simpl; lia | exact HNp].
Qed.

(** ** Expanding the non-silent ranges by [keep_silence] *)

Lemma pairwise_from_spec keep hi N : forall n x lo,
  0 <= keep -> 0 <= lo ->
  sorted_ranges lo (n :: N) hi ->
  fst n - keep <= x <= fst n ->
  let O := map (fun r : Z * Z => (Z.max (fst r) 0, Z.min (snd r) hi))
               (pairwise_from (x, snd n + keep)
                  (map (fun r : Z * Z => (fst r - keep, snd r + keep)) N)) in
  Forall2 (expanded_within keep hi) (n :: N) O /\
  neighbours_split keep (n :: N) O /\
  sorted_ranges 0 O hi /\
  (Forall positive_range (n :: N) -> Forall positive_range O) /\
  exists e tl, O = (Z.max x 0, e) :: tl.
Proof.
  induction N as [|n2 N IH]; intros n x lo Hk Hlo Hs Hx.
  - destruct Hs as (H1 & H2 & H3). simpl in H3. simpl.
    repeat split; try (unfold expanded_within; simpl; lia); try lia.
    + constructor; [|constructor]. unfold expanded_within; simpl. lia.
    + intros Hp. inversion Hp; subst. unfold positive_range in *.
      constructor; [simpl; lia | constructor].
    + eauto.
  - destruct Hs as (H1 & H2 & Hs2).
    pose proof Hs2 as (H3 & H4 & Hs3).
    pose proof (sorted_ranges_bounds _ _ _ Hs3) as Hb.
    cbn [map pairwise_from fst snd].
    destruct (fst n2 - keep <? snd n + keep) eqn:E.
    + apply Z.ltb_lt in E.
      set (mid := (snd n + keep + (fst n2 - keep)) / 2).
      assert (Hmid : mid = snd n + (fst n2 - snd n) / 2 /\
                     mid = fst n2 - (fst n2 - snd n - (fst n2 - snd n) / 2))
        by (unfold mid; Z.div_mod_to_equations; lia).
      assert (Hmb : snd n <= mid <= fst n2 /\ fst n2 - keep <= mid <= snd n + keep)
        by (unfold mid; Z.div_mod_to_equations; lia).
      destruct Hmid as (Hmid1 & Hmid2).
      destruct (IH n2 mid (snd n) Hk ltac:(lia) Hs2 ltac:(lia))
        as (HF & HN & HS & HP & e & tl & HO).
      cbn [map fst snd]. cbv zeta in HF, HN, HS, HP, HO. rewrite HO in *.
      split; [|split; [|split; [|split]]].
      * constructor; [unfold expanded_within; simpl; lia | exact HF].
      * cbn [neighbours_split]. split; [|exact HN].
        cbn [fst snd]. split; [lia|]. intros _. cbv zeta.
        rewrite <- Hmid1, <- Hmid2. lia.
      * simpl in HS |- *. destruct HS as (HS0 & HS1 & HS2).
        repeat split; auto; lia.
      * intros Hp. inversion Hp; subst.
        constructor; [unfold positive_range in *; simpl; lia | now apply HP].
      * eauto.
    + apply Z.ltb_ge in E.
      destruct (IH n2 (fst n2 - keep) (snd n) Hk ltac:(lia) Hs2 ltac:(lia))
        as (HF & HN & HS & HP & e & tl & HO).
      cbn [map fst snd]. cbv zeta in HF, HN, HS, HP, HO. rewrite HO in *.
      split; [|split; [|split; [|split]]].
      * constructor; [unfold expanded_within; simpl; lia | exact HF].
      * cbn [neighbours_split]. split; [|exact HN].
        cbn [fst snd]. split; [lia|]. intros Hov. lia.
      * simpl in HS |- *. destruct HS as (HS0 & HS1 & HS2).
        repeat split; auto; lia.
      * intros Hp. inversion Hp; subst.
        constructor; [unfold positive_range in *; simpl; lia | now apply HP].
      * eauto.
Qed.

Lemma sorted_ranges_In l : forall lo hi r,
  sorted_ranges lo l hi -> In r l -> lo <= fst r /\ fst r <= snd r /\ snd r <= hi.
Proof.
  induction l as [|r' l IH]; simpl; intros lo hi r Hs Hr; [destruct Hr|].
  destruct Hs as (H1 & H2 & H3). destruct Hr as [->|Hr].
  - pose proof (sorted_ranges_bounds _ _ _ H3). lia.
  - destruct (IH _ _ _ H3 Hr) as (? & ? & ?). lia.
Qed.

Lemma sorted_ranges_increasing l : forall lo hi,
  sorted_ranges lo l hi -> Forall positive_range l ->
  increasing (lo - 1) (map fst l) /\ total_length l <= hi - lo.
Proof.
  induction l as [|r l IH]; simpl; intros lo hi Hs Hp.
  - split; [exact I | lia].
  - destruct Hs as (H1 & H2 & H3). inversion Hp as [|? ? Hr Hp']; subst.
    unfold positive_range in Hr.
    destruct (IH _ _ H3 Hp') as (Hi & Ht). split; [split; [lia|] | unfold total_length in *; simpl; lia].
    destruct l as [|r' l]; [exact I|].
    simpl in *. destruct Hi as (Hi1 & Hi2). split; [lia | exact Hi2].
Qed.

(** What [split_on_silence] computes on a well-formed segment: it never
    raises, and its ranges are the non-silent ranges expanded by
    [keep_silence], shared in halves where they would overlap, and clipped
    to the segment. *)
Lemma split_on_silence_spec seg msl thr keep :
  well_formed seg -> 0 <= msl -> 0 <= keep ->
  exists N O chunks,
    detect_nonsilent seg msl thr = Return N /\
    split_ranges seg msl thr keep = Return O /\
    split_on_silence seg msl thr keep = Return chunks /\
    mapM (fun r : Z * Z => getitem seg (fst r) (snd r)) O = Return chunks /\
    sorted_ranges 0 N (len seg) /\
    Forall2 (expanded_within keep (len seg)) N O /\
    neighbours_split keep N O /\
    sorted_ranges 0 O (len seg) /\
    (0 < len seg -> Forall positive_range O).
Proof.
  intros Hwf Hm Hk.
  destruct (detect_nonsilent_spec seg msl thr Hwf Hm) as (N & HN & HNs & HNp).
  destruct (len_bounds seg Hwf) as (Hlen & _).
  set (O := map (fun r : Z * Z => (Z.max (fst r) 0, Z.min (snd r) (len seg)))
              (pairwise_fix (map (fun r : Z * Z => (fst r - keep, snd r + keep)) N))).
  assert (HO : split_ranges seg msl thr keep = Return O).
  { unfold split_ranges. rewrite HN. reflexivity. }
  assert (Hprops : Forall2 (expanded_within keep (len seg)) N O /\
                   neighbours_split keep N O /\
                   sorted_ranges 0 O (len seg) /\
                   (Forall positive_range N -> Forall positive_range O)).
  { unfold O. destruct N as [|n N].
    - simpl. repeat split; auto; lia.
    - cbn [map pairwise_fix fst snd].
      destruct (pairwise_from_spec keep (len seg) N n (fst n - keep) 0 Hk (Z.le_refl 0) HNs)
        as (H1 & H2 & H3 & H4 & _); [simpl in HNs; lia|].
      repeat split; assumption. }
  destruct Hprops as (HF & HNb & HOs & HOp).
  assert (Hget : succeeds (mapM (fun r : Z * Z => getitem seg (fst r) (snd r)) O)).
  { apply mapM_total. intros r Hr.
    assert (Hb : 0 <= fst r /\ 0 <= snd r).
    { pose proof (sorted_ranges_In O 0 (len seg) r HOs Hr). lia. }
    apply getitem_succeeds; tauto. }
  destruct Hget as (chunks & Hchunks).
  exists N, O, chunks.
  repeat split; auto.
  unfold split_on_silence. rewrite HO. exact Hchunks.
Qed.

(** ** The two edge cases of the segmentation *)

Lemma py_range_succ (n : Z) :
  0 < n -> py_range n = 0 :: map Z.of_nat (seq 1 (Z.to_nat (n - 1))).
Proof.
  intros Hn. unfold py_range.
  replace (Z.to_nat n) with (S (Z.to_nat (n - 1))) by lia. reflexivity.
Qed.

(** Every window silent, in a segment at least one window long: the whole
    segment is one silent range and nothing is returned. *)
Lemma split_all_silent seg msl thr keep :
  well_formed seg -> 0 <= msl -> msl <= len seg ->
  (forall i, 0 <= i <= len seg - msl ->
     window_silent seg msl (db_to_float thr * IZR (max_possible_amplitude seg))%R i
     = Return true) ->
  detect_nonsilent seg msl thr = Return [] /\
  split_on_silence seg msl thr keep = Return [].
Proof.
  intros Hwf Hm Hl Hall.
  assert (HN : detect_nonsilent seg msl thr = Return []).
  { unfold detect_nonsilent.
    rewrite detect_silence_unfold by (auto; apply Z.ltb_ge; lia).
    rewrite filter_all.
    - rewrite py_range_succ by lia. cbv beta iota.
      pose proof (combine_ranges_continuous msl (Z.to_nat (len seg - msl + 1 - 1)) 0 0)
        as Hcr.
      change (Z.of_nat 0) with 0 in Hcr. rewrite Hcr.
      simpl bind. cbv beta iota.
      replace (Z.of_nat (Z.to_nat (len seg - msl + 1 - 1)) + msl) with (len seg) by lia.
      now rewrite Z.eqb_refl.
    - intros i Hi. apply py_range_In in Hi. unfold accepts.
      rewrite Hall by lia. reflexivity. }
  split; [exact HN|].
  unfold split_on_silence, split_ranges. rewrite HN. reflexivity.
Qed.

(** No window silent, or no room for a window: one range, the whole
    segment. *)
Lemma split_none_silent seg msl thr keep :
  well_formed seg -> 0 <= msl -> 0 <= keep ->
  (len seg < msl \/
   forall i, 0 <= i <= len seg - msl ->
     window_silent seg msl (db_to_float thr * IZR (max_possible_amplitude seg))%R i
     = Return false) ->
  split_ranges seg msl thr keep = Return [(0, len seg)] /\
  exists c, getitem seg 0 (len seg) = Return c /\
            split_on_silence seg msl thr keep = Return [c].
Proof.
  intros Hwf Hm Hk Hnone.
  destruct (len_bounds seg Hwf) as (Hlen & _).
  assert (HS : detect_silence seg msl thr = Return []).
  { destruct (len seg <? msl) eqn:E.
    - unfold detect_silence. now rewrite E.
    - rewrite detect_silence_unfold by assumption.
      apply Z.ltb_ge in E. destruct Hnone as [Hlt|Hnone]; [lia|].
      rewrite filter_none; [reflexivity|].
      intros i Hi. apply py_range_In in Hi. unfold accepts.
      rewrite Hnone by lia. reflexivity. }
  assert (HR : split_ranges seg msl thr keep = Return [(0, len seg)]).
  { unfold split_ranges, detect_nonsilent. rewrite HS. simpl.
    replace (Z.max (- keep) 0) with 0 by lia.
    replace (Z.min (len seg + keep) (len seg)) with (len seg) by lia.
    reflexivity. }
  split; [exact HR|].
  destruct (getitem_succeeds seg 0 (len seg) Hwf (Z.le_refl 0) Hlen) as [c Hc].
  exists c. split; [exact Hc|].
  unfold split_on_silence. rewrite HR. simpl. rewrite Hc. reflexivity.
Qed.

Lemma db_to_float_nonneg thr : (0 <= db_to_float thr)%R.
Proof.
  destruct thr as [|x]; simpl; [lra|].
  unfold Rpower. left. apply exp_pos.
Qed.

Lemma Rle_bool_true (a b : R) : (a <= b)%R -> Rle_bool a b = true.
Proof. intros H. unfold Rle_bool. destruct (Rle_dec a b); [reflexivity | contradiction]. Qed.

Lemma short_silence_wf : well_formed short_silence.
Proof. split; simpl; [lia | lia | right; left; reflexivity | reflexivity]. Qed.

Lemma long_silence_wf : well_formed long_silence.
Proof. split; simpl; [lia | lia | right; left; reflexivity | reflexivity]. Qed.

(** The one 200 ms window of [long_silence] is silent at any threshold. *)
Lemma long_silence_window thr i :
  0 <= i <= len long_silence - 200 ->
  window_silent long_silence 200
    (db_to_float thr * IZR (max_possible_amplitude long_silence))%R i = Return true.
Proof.
  change (len long_silence) with 200. intros Hi.
  assert (i = 0) by lia. subst i.
  unfold window_silent.
  assert (Hg : getitem long_silence 0 (0 + 200) = Return long_silence)
    by (vm_compute; reflexivity).
  rewrite Hg. simpl bind.
  assert (Hr : rms long_silence = 0) by (vm_compute; reflexivity).
  rewrite Hr. rewrite Rle_bool_true; [reflexivity|].
  apply Rmult_le_pos; [apply db_to_float_nonneg|].
  apply IZR_le. pose proof (max_possible_amplitude_pos _ long_silence_wf). lia.
Qed.

Lemma loud_signal_wf : well_formed loud_signal.
Proof. split; simpl; [lia | lia | right; left; reflexivity | reflexivity]. Qed.

(** The one 200 ms window of [loud_signal] is not silent at the threshold
    minus infinity. *)
Lemma loud_signal_window i :
  0 <= i <= len loud_signal - 200 ->
  window_silent loud_signal 200
    (db_to_float NegInf * IZR (max_possible_amplitude loud_signal))%R i = Return false.
Proof.
  change (len loud_signal) with 200. intros Hi.
  assert (i = 0) by lia. subst i.
  unfold window_silent.
  assert (Hg : getitem loud_signal 0 (0 + 200) = Return loud_signal)
    by (vm_compute; reflexivity).
  rewrite Hg. simpl bind.
  assert (Hr : rms loud_signal = 32767) by (vm_compute; reflexivity).
  rewrite Hr. unfold Rle_bool. simpl db_to_float.
  destruct (Rle_dec _ _) as [H|H]; [|reflexivity].
  rewrite Rmult_0_l in H. apply le_IZR in H. lia.
Qed.

(** ** A segmentation worked out: [two_bursts] at -20 dBFS *)

Lemma two_bursts_wf : well_formed two_bursts.
Proof. split; simpl; [lia | lia | right; left; reflexivity | reflexivity]. Qed.

Lemma db_to_float_minus_20 : db_to_float (Fin (-20)%R) = (/ 10)%R.
Proof.
  unfold db_to_float. replace (-20 / 20)%R with (- (1))%R by lra.
  rewrite Rpower_Ropp, Rpower_1 by lra. reflexivity.
Qed.

Lemma Rle_bool_tenth (r : Z) :
  Rle_bool (IZR r) (/ 10 * IZR 32768)%R = (r <=? 3276).
Proof.
  unfold Rle_bool. destruct (Rle_dec _ _) as [H|H]; symmetry.
  - apply Z.leb_le.
    assert (H10 : (IZR (10 * r) <= IZR 32768)%R) by (rewrite mult_IZR; lra).
    apply le_IZR in H10. lia.
  - apply Z.leb_gt. destruct (Z.le_gt_cases r 3276) as [Hle|Hgt]; [|lia].
    exfalso. apply H. apply IZR_le in Hle. lra.
Qed.

(** At -20 dBFS a window of 16-bit audio is silent when its RMS is at most
    3276, a tenth of full scale. *)
Lemma window_silent_minus_20 seg msl i :
  sample_width seg = 2 ->
  window_silent seg msl
    (db_to_float (Fin (-20)%R) * IZR (max_possible_amplitude seg))%R i
  = (c <- getitem seg i (i + msl) ;; Return (rms c <=? 3276)).
Proof.
  intros Hw. unfold window_silent, max_possible_amplitude. rewrite Hw.
  change (2 ^ (2 * 8) / 2) with 32768. rewrite db_to_float_minus_20.
  destruct (getitem seg i (i + msl)) as [c|e]; simpl; [|reflexivity].
  now rewrite Rle_bool_tenth.
Qed.

Lemma two_bursts_silence :
  detect_silence two_bursts 2 (Fin (-20)%R) = Return [(3, 7)].
Proof.
  rewrite detect_silence_unfold by (try exact two_bursts_wf; try lia; reflexivity).
  erewrite filter_ext.
  2: { intros i. unfold accepts.
       rewrite (window_silent_minus_20 two_bursts 2 i eq_refl). reflexivity. }
  vm_compute. reflexivity.
Qed.

Lemma two_bursts_nonsilent :
  detect_nonsilent two_bursts 2 (Fin (-20)%R) = Return [(0, 3); (7, 10)].
Proof. unfold detect_nonsilent. rewrite two_bursts_silence. reflexivity. Qed.

Lemma two_bursts_ranges keep :
  split_ranges two_bursts 2 (Fin (-20)%R) keep =
  Return (map (fun r : Z * Z => (Z.max (fst r) 0, Z.min (snd r) 10))
              (pairwise_fix (map (fun r : Z * Z => (fst r - keep, snd r + keep))
                                 [(0, 3); (7, 10)]))).
Proof. unfold split_ranges. rewrite two_bursts_nonsilent. reflexivity. Qed.


Lemma two_bursts_ranges_1 :
  split_ranges two_bursts 2 (Fin (-20)%R) 1 = Return [(0, 4); (6, 10)].
Proof. rewrite two_bursts_ranges. reflexivity. Qed.

Lemma two_bursts_ranges_0 :
  split_ranges two_bursts 2 (Fin (-20)%R) 0 = Return [(0, 3); (7, 10)].
Proof. rewrite two_bursts_ranges. reflexivity. Qed.

(** ** Windows of length 0 *)

Lemma py_slice_empty {A : Type} (l : list A) (s : Z) : py_slice l s s = [].
Proof. unfold py_slice. rewrite Z.sub_diag. reflexivity. Qed.

(** With [min_silence_len = 0] every window is an empty slice, of RMS 0,
    and is silent at any threshold. *)
Lemma window_zero_length seg thr i :
  well_formed seg ->
  window_silent seg 0 (db_to_float thr * IZR (max_possible_amplitude seg))%R i
  = Return true.
Proof.
  intros Hwf. pose proof (wf_channels _ Hwf) as Hc.
  unfold window_silent, getitem. rewrite Z.add_0_r, py_slice_empty.
  cbn [List.length Z.of_nat]. rewrite Z.sub_diag, Z.sub_0_r, Z.div_0_l by lia.
  cbn [Z.eqb bind]. unfold rms. cbn [spawn data]. cbn [Audioop.rms].
  rewrite Rle_bool_true; [reflexivity|].
  apply Rmult_le_pos; [apply db_to_float_nonneg|].
  apply IZR_le. pose proof (max_possible_amplitude_pos _ Hwf). lia.
Qed.

Lemma sorted_ranges_total l : forall lo hi,
  sorted_ranges lo l hi -> total_length l <= hi - lo.
Proof.
  induction l as [|r l IH]; simpl; intros lo hi Hs.
  - unfold total_length; simpl. lia.
  - destruct Hs as (H1 & H2 & H3). specialize (IH _ _ H3).
    unfold total_length in *. simpl. lia.
Qed.

(** The ranges cut from a segment of length 0: the single range from 0 to
    0 when a silent run needs a positive length, none otherwise. *)
Lemma split_ranges_zero_length seg msl thr keep :
  well_formed seg -> 0 <= msl -> 0 <= keep -> len seg = 0 ->
  split_ranges seg msl thr keep = Return (if 0 <? msl then [(0, 0)] else []).
Proof.
  intros Hwf Hm Hk H0. destruct (0 <? msl) eqn:E.
  - apply Z.ltb_lt in E.
    destruct (split_none_silent seg msl thr keep Hwf Hm Hk) as (HR & _); [left; lia|].
    rewrite HR, H0. reflexivity.
  - apply Z.ltb_ge in E. assert (Hz : msl = 0) by lia. subst msl.
    destruct (split_all_silent seg 0 thr keep Hwf) as (HN & _); [lia | lia | |].
    + intros i _. now apply window_zero_length.
    + unfold split_ranges. rewrite HN. reflexivity.
Qed.

(** ** C6: expansion by [keep_silence] *)



(** ** C7: nothing silent, everything silent *)

(** C7, amended.  [split_audio_on_silence] returns an empty sequence when
    every window of [min_silence_len] ms of the buffer is silent and the
    buffer is at least [min_silence_len] ms long; it returns exactly one
    segment, the slice of the whole buffer, when no window of
    [min_silence_len] ms is silent, which includes every buffer shorter
    than [min_silence_len], entirely silent or not. *)
Theorem C7_edge_cases
    (audio : AudioSegment) (min_silence_len : Z) (silence_thresh : pyfloat)
    (keep_silence : Z) :
  well_formed audio -> 0 <= min_silence_len -> 0 <= keep_silence ->
  let thresh := (db_to_float silence_thresh * IZR (max_possible_amplitude audio))%R in
  (min_silence_len <= len audio ->
   (forall i, 0 <= i <= len audio - min_silence_len ->
      window_silent audio min_silence_len thresh i = Return true) ->
   split_audio_on_silence audio min_silence_len silence_thresh keep_silence
     = Return []) /\
  (len audio < min_silence_len \/
   (forall i, 0 <= i <= len audio - min_silence_len ->
      window_silent audio min_silence_len thresh i = Return false) ->
   split_ranges audio min_silence_len silence_thresh keep_silence
     = Return [(0, len audio)] /\
   exists c,
     getitem audio 0 (len audio) = Return c /\
     split_audio_on_silence audio min_silence_len silence_thresh keep_silence
       = Return [c]).
Proof.
  intros Hwf Hm Hk thresh. split.
  - intros Hl Hall.
    now apply (split_all_silent audio min_silence_len silence_thresh keep_silence).
  - intros Hnone.
    now apply (split_none_silent audio min_silence_len silence_thresh keep_silence).
Qed.

Lemma C7_edge_cases_witness :
  split_audio_on_silence long_silence MIN_SILENCE_LEN NegInf KEEP_SILENCE = Return [] /\
  split_ranges short_silence MIN_SILENCE_LEN NegInf KEEP_SILENCE
    = Return [(0, len short_silence)] /\
  split_ranges loud_signal MIN_SILENCE_LEN NegInf KEEP_SILENCE
    = Return [(0, len loud_signal)].
Proof.
  split; [|split].
  3: { apply (C7_edge_cases loud_signal MIN_SILENCE_LEN NegInf KEEP_SILENCE loud_signal_wf).
       - unfold MIN_SILENCE_LEN; lia.
       - unfold KEEP_SILENCE; lia.
       - right. exact loud_signal_window. }
  - apply (C7_edge_cases long_silence MIN_SILENCE_LEN NegInf KEEP_SILENCE long_silence_wf).
    + unfold MIN_SILENCE_LEN; lia.
    + unfold KEEP_SILENCE; lia.
    + vm_compute; discriminate.
    + exact (long_silence_window NegInf).
  - apply (C7_edge_cases short_silence MIN_SILENCE_LEN NegInf KEEP_SILENCE short_silence_wf).
    + unfold MIN_SILENCE_LEN; lia.
    + unfold KEEP_SILENCE; lia.
    + left. reflexivity.
Defined.

(** C7 as stated fails: 100 ms of digital silence, all of it below any
    threshold, comes back as one segment spanning the buffer and not as an
    empty sequence, because it is shorter than the 200 ms a silent run
    needs. *)
Lemma C7_counterexample :
  Forall (fun v => v = 0) (data short_silence) /\
  calculate_silence_threshold short_silence SILENCE_THRESH_OFFSET = Return NegInf /\
  split_audio_on_silence short_silence MIN_SILENCE_LEN NegInf KEEP_SILENCE
    = Return [short_silence].
Proof.
  split; [|split].
  - apply Forall_forall. intros v Hv. unfold short_silence, data in Hv.
    now apply repeat_spec in Hv.
  - reflexivity.
  - vm_compute. reflexivity.
Qed.

(** ** C8: order and lengths of the segments *)

(** C8, amended.  For every buffer and every valid parameter combination,
    the ranges [split_audio_on_silence] slices the buffer at lie within
    the buffer, do not overlap, come in strictly increasing start order,
    and their lengths add up to at most the length of the buffer; each
    has positive length provided the buffer has.  A buffer of length 0 is
    returned as one segment of length 0 when [min_silence_len] is
    positive, and as no segment when [min_silence_len] is 0. *)
Theorem C8_segments_ordered
    (audio : AudioSegment) (min_silence_len : Z) (silence_thresh : pyfloat)
    (keep_silence : Z) :
  well_formed audio -> 0 <= min_silence_len -> 0 <= keep_silence ->
  exists O chunks,
    split_ranges audio min_silence_len silence_thresh keep_silence = Return O /\
    split_audio_on_silence audio min_silence_len silence_thresh keep_silence
      = Return chunks /\
    mapM (fun r : Z * Z => getitem audio (fst r) (snd r)) O = Return chunks /\
    sorted_ranges 0 O (len audio) /\
    increasing (-1) (map fst O) /\
    total_length O <= len audio /\
    (0 < len audio -> Forall positive_range O) /\
    (len audio = 0 -> O = if 0 <? min_silence_len then [(0, 0)] else []).
Proof.
  intros Hwf Hm Hk.
  destruct (split_on_silence_spec audio min_silence_len silence_thresh keep_silence
              Hwf Hm Hk) as (N & O & chunks & _ & H2 & H3 & H4 & _ & _ & _ & H7 & H8).
  exists O, chunks.
  destruct (len_bounds audio Hwf) as (Hlen & _).
  assert (Hzero : len audio = 0 ->
                  O = if 0 <? min_silence_len then [(0, 0)] else []).
  { intros H0.
    pose proof (split_ranges_zero_length audio min_silence_len silence_thresh
                  keep_silence Hwf Hm Hk H0) as HR.
    rewrite H2 in HR. now inversion HR. }
  assert (Hinc : increasing (-1) (map fst O)).
  { destruct (Z.eq_dec (len audio) 0) as [H0|H0].
    - rewrite (Hzero H0). destruct (0 <? min_silence_len); simpl; auto. lia.
    - apply (sorted_ranges_increasing O 0 (len audio) H7). apply H8. lia. }
  pose proof (sorted_ranges_total O 0 (len audio) H7) as Htot.
  split; [exact H2|]. split; [exact H3|]. split; [exact H4|].
  split; [exact H7|]. split; [exact Hinc|]. split; [lia|].
  split; [exact H8 | exact Hzero].
Qed.

Lemma C8_segments_ordered_witness :
  split_ranges two_bursts 2 (Fin (-20)%R) 1 = Return [(0, 4); (6, 10)] /\
  sorted_ranges 0 [(0, 4); (6, 10)] (len two_bursts) /\
  increasing (-1) (map fst [(0, 4); (6, 10)]) /\
  total_length [(0, 4); (6, 10)] <= len two_bursts /\
  Forall positive_range [(0, 4); (6, 10)] /\
  (exists chunks,
     split_audio_on_silence two_bursts 2 (Fin (-20)%R) 1 = Return chunks /\
     List.length chunks = 2%nat) /\
  split_ranges chunk_no_samples 200 NegInf 0 = Return [(0, 0)] /\
  split_ranges chunk_no_samples 0 NegInf 0 = Return [].
Proof.
  destruct (C8_segments_ordered two_bursts 2 (Fin (-20)%R) 1 two_bursts_wf)
    as (O & chunks & HO & Hs & Hm & Hsort & Hinc & Htot & Hpos & _); [lia | lia |].
  assert (EO : O = [(0, 4); (6, 10)])
    by (pose proof two_bursts_ranges_1 as H0; congruence).
  subst O.
  split; [exact HO|]. split; [exact Hsort|]. split; [exact Hinc|].
  split; [exact Htot|]. split; [apply Hpos; reflexivity|].
  split; [exists chunks; split; [exact Hs | exact (mapM_length _ _ _ Hm)]|].
  assert (Hwf : well_formed chunk_no_samples).
  { split; simpl; [lia | lia | right; left; reflexivity | reflexivity]. }
  split.
  - destruct (C8_segments_ordered chunk_no_samples 200 NegInf 0 Hwf)
      as (O & chunks' & HO1 & _ & _ & _ & _ & _ & _ & Hz); [lia | lia |].
    rewrite HO1. now rewrite (Hz eq_refl).
  - destruct (C8_segments_ordered chunk_no_samples 0 NegInf 0 Hwf)
      as (O & chunks' & HO1 & _ & _ & _ & _ & _ & _ & Hz); [lia | lia |].
    rewrite HO1. now rewrite (Hz eq_refl).
Defined.

(** C8 as stated fails: a buffer without samples is returned as one
    segment, the range from 0 to 0, whose length is not positive. *)
Lemma C8_counterexample :
  well_formed chunk_no_samples /\
  split_ranges chunk_no_samples MIN_SILENCE_LEN NegInf KEEP_SILENCE = Return [(0, 0)] /\
  split_audio_on_silence chunk_no_samples MIN_SILENCE_LEN NegInf KEEP_SILENCE
    = Return [chunk_no_samples] /\
  ~ Forall positive_range [(0, 0)].
Proof.
  split; [|split; [|split]].
  - split; simpl; [lia | lia | right; left; reflexivity | reflexivity].
  - vm_compute. reflexivity.
  - vm_compute. reflexivity.
  - intros H. inversion H as [|? ? Hp _]; subst. unfold positive_range in Hp. simpl in Hp. lia.
Qed.

(** ** C10: the run when nothing is segmented *)

(** C10.  Whenever the segmentation returns no chunk, [process_audio]
    prints the "No chunks were created" line and returns normally, without
    raising; after the segmentation it makes no further call: no chunk is
    processed, nothing is concatenated, nothing is exported. *)
Theorem C10_no_segments
    (w : World) (input_file output_file : string) (audio : AudioSegment)
    (silence_thresh : pyfloat) :
  from_file w input_file = Return audio ->
  calculate_silence_threshold audio SILENCE_THRESH_OFFSET = Return silence_thresh ->
  split_audio_on_silence audio MIN_SILENCE_LEN silence_thresh KEEP_SILENCE = Return [] ->
  process_audio w input_file output_file =
  ([Call "load_audio"; Call "calculate_silence_threshold"; Call "split_audio_on_silence";
    Print "No chunks were created. Check the silence detection parameters."],
   Return tt) /\
  ~ In (Call "process_chunks") (fst (process_audio w input_file output_file)) /\
  ~ In (Call "concatenate_chunks") (fst (process_audio w input_file output_file)) /\
  ~ In (Call "export_audio") (fst (process_audio w input_file output_file)).
Proof.
  intros Hload Hthr Hsplit.
  assert (Hrun : process_audio w input_file output_file =
    ([Call "load_audio"; Call "calculate_silence_threshold"; Call "split_audio_on_silence";
      Print "No chunks were created. Check the silence detection parameters."],
     Return tt)).
  { unfold process_audio, load_audio, call. rewrite Hload. cbn [io_bind].
    rewrite Hthr. cbn [io_bind]. rewrite Hsplit. reflexivity. }
  rewrite Hrun. split; [reflexivity|]. simpl.
  repeat split; intros [H|[H|[H|[H|[]]]]]; discriminate.
Qed.

Lemma C10_no_segments_witness :
  process_audio (world_of long_silence) "in.mp3" "out.mp3" =
  ([Call "load_audio"; Call "calculate_silence_threshold"; Call "split_audio_on_silence";
    Print "No chunks were created. Check the silence detection parameters."],
   Return tt).
Proof.
  apply (C10_no_segments (world_of long_silence) "in.mp3" "out.mp3" long_silence NegInf).
  - reflexivity.
  - reflexivity.
  - apply (split_all_silent long_silence MIN_SILENCE_LEN NegInf KEEP_SILENCE long_silence_wf).
    + unfold MIN_SILENCE_LEN; lia.
    + vm_compute; discriminate.
    + exact (long_silence_window NegInf).
Defined.

(** ** Frame counts through the conversions *)

Lemma emit_length (k : nat) width inrate outrate : forall d prev cur,
  List.length (Audioop.emit k width inrate outrate d prev cur) =
  (k * Nat.min (List.length prev) (List.length cur))%nat.
Proof.
  induction k as [|k IH]; simpl; intros d prev cur; [reflexivity|].
  rewrite length_app, IH. unfold Audioop.interpolate.
  now rewrite length_map, length_combine.
Qed.

(** Upsampling from a state with [-inrate <= d < 0]: [n] input frames give
    [E] output frames with [n * outrate + d < E * inrate <= n * outrate + d + inrate]. *)
Lemma ratecv_loop_length width (c : nat) inrate outrate (n : nat) :
  forall fragment d cur,
  (0 < c)%nat -> 0 < inrate <= outrate ->
  List.length cur = c -> (n * c <= List.length fragment)%nat ->
  - inrate <= d < 0 ->
  exists E,
    Z.of_nat (List.length
      (Audioop.ratecv_loop n fragment width (Z.of_nat c) inrate outrate d cur))
    = E * Z.of_nat c /\
    Z.of_nat n * outrate + d < E * inrate <= Z.of_nat n * outrate + d + inrate.
Proof.
  induction n as [|n IH]; intros fragment d cur Hc Hr Hcur Hfrag Hd.
  - exists 0. simpl. lia.
  - cbn [Audioop.ratecv_loop]. rewrite Nat2Z.id.
    assert (Hd' : (d + outrate <? 0) = false) by (apply Z.ltb_ge; lia).
    rewrite Hd'.
    set (k := (d + outrate) / inrate + 1).
    assert (Hk : 0 < k /\ - inrate <= d + outrate - k * inrate < 0).
    { unfold k.
      pose proof (Z.div_mod (d + outrate) inrate ltac:(lia)).
      pose proof (Z.mod_pos_bound (d + outrate) inrate ltac:(lia)).
      assert (0 <= (d + outrate) / inrate) by (apply Z.div_pos; lia).
      split; nia. }
    assert (Hf : List.length (firstn c fragment) = c).
    { rewrite length_firstn. simpl in Hfrag. lia. }
    destruct (IH (skipn c fragment) (d + outrate - k * inrate) (firstn c fragment)
                 Hc Hr Hf) as (E & HE & HEb).
    { rewrite length_skipn. simpl in Hfrag. lia. }
    { lia. }
    exists (k + E).
    rewrite length_app, emit_length, Hcur, Hf, Nat.min_id, Nat2Z.inj_add, HE.
    rewrite Nat2Z.inj_mul, Z2Nat.id by lia.
    split; [ring|]. lia.
Qed.

Lemma ratecv_length fragment width (c : nat) inrate outrate (n : nat) :
  (0 < c)%nat -> 0 < inrate <= outrate ->
  List.length fragment = (S n * c)%nat ->
  exists E,
    Z.of_nat (List.length (Audioop.ratecv fragment width (Z.of_nat c) inrate outrate))
    = E * Z.of_nat c /\
    Z.of_nat n * outrate < E * inrate <= Z.of_nat n * outrate + inrate.
Proof.
  intros Hc Hr Hlen. unfold Audioop.ratecv.
  set (g := Z.gcd inrate outrate).
  assert (Hg : 0 < g).
  { pose proof (Z.gcd_nonneg inrate outrate).
    assert (g <> 0) by (unfold g; intros H0; apply Z.gcd_eq_0_l in H0; lia). lia. }
  destruct (Z.gcd_divide_l inrate outrate) as [i Hi].
  destruct (Z.gcd_divide_r inrate outrate) as [o Ho].
  fold g in Hi, Ho.
  assert (Ei : inrate / g = i) by (rewrite Hi at 1; now apply Z.div_mul; lia).
  assert (Eo : outrate / g = o) by (rewrite Ho at 1; now apply Z.div_mul; lia).
  rewrite Ei, Eo.
  assert (Hio : 0 < i <= o) by nia.
  assert (Hn : Z.to_nat (Z.of_nat (List.length fragment) / Z.of_nat c) = S n).
  { rewrite Hlen, Nat2Z.inj_mul, Z.div_mul by lia. lia. }
  rewrite Hn. cbn [Audioop.ratecv_loop]. rewrite Nat2Z.id.
  replace (- o + o) with 0 by lia.
  change (0 <? 0) with false. cbv beta iota.
  rewrite Z.div_0_l by lia. change (Z.to_nat (0 + 1)) with 1%nat.
  cbn [Audioop.emit]. rewrite app_nil_r.
  assert (Hf : List.length (firstn c fragment) = c).
  { rewrite length_firstn, Hlen. simpl. lia. }
  destruct (ratecv_loop_length width c i o n (skipn c fragment) (0 - (0 + 1) * i)
              (firstn c fragment) Hc Hio Hf) as (E & HE & HEb).
  { rewrite length_skipn, Hlen. simpl. lia. }
  { lia. }
  exists (1 + E).
  rewrite length_app, Nat2Z.inj_add, HE.
  unfold Audioop.interpolate.
  rewrite length_map, length_combine, repeat_length, Hf, Nat.min_id.
  split; [ring|]. nia.
Qed.

Lemma flat_map_repeat_length (l : list Z) (k : nat) :
  List.length (flat_map (fun v => repeat v k) l) = (List.length l * k)%nat.
Proof.
  induction l as [|v l IH]; simpl; [reflexivity|].
  now rewrite length_app, repeat_length, IH.
Qed.

Lemma tostereo_length (l : list Z) width :
  List.length (Audioop.tostereo l width) = (List.length l * 2)%nat.
Proof.
  unfold Audioop.tostereo. induction l as [|v l IH]; simpl; [reflexivity|].
  now rewrite IH.
Qed.

Lemma set_channels_mono_length seg chans seg' :
  channels seg = 1 -> 0 < chans -> set_channels seg chans = Return seg' ->
  Z.of_nat (List.length (data seg')) = Z.of_nat (List.length (data seg)) * chans.
Proof.
  intros H1 Hc. unfold set_channels. rewrite H1.
  destruct (chans =? 1) eqn:E1.
  - apply Z.eqb_eq in E1. intros H; inversion H; subst. lia.
  - destruct (chans =? 2) eqn:E2; simpl.
    + apply Z.eqb_eq in E2. intros H; inversion H; subst. simpl.
      rewrite tostereo_length. lia.
    + destruct (chans <=? 0) eqn:E3; [apply Z.leb_le in E3; lia|].
      intros H; inversion H; subst. simpl.
      rewrite flat_map_repeat_length. lia.
Qed.

Lemma normalize_length seg :
  List.length (data (normalize seg)) = List.length (data seg).
Proof.
  unfold normalize, normalize_headroom.
  destruct (max seg =? 0); [reflexivity|].
  unfold apply_gain, Audioop.mul. simpl. apply length_map.
Qed.

Lemma set_sample_width_length seg width :
  List.length (data (set_sample_width seg width)) = List.length (data seg).
Proof.
  unfold set_sample_width. destruct (width =? sample_width seg); [reflexivity|].
  simpl. unfold Audioop.lin2lin. apply length_map.
Qed.

(** The padding of [p] frames brought to [chans] channels at [rate] Hz:
    [E] frames, [p] of them when no resampling is needed and otherwise
    about [p * rate / 11025], short by less than one input frame. *)
Lemma pad_convert_frames (p : nat) chans rate width :
  0 < chans -> 11025 <= rate ->
  exists seg E,
    convert (mkAudioSegment 2 11025 1 (repeat 0 p)) chans rate width = Return seg /\
    Z.of_nat (List.length (data seg)) = E * chans /\
    ((rate = 11025 /\ E = Z.of_nat p) \/
     (p = 0%nat /\ E = 0) \/
     (0 < Z.of_nat p /\
      (Z.of_nat p - 1) * rate < E * 11025 <= (Z.of_nat p - 1) * rate + 11025)).
Proof.
  intros Hc Hr. set (pad := mkAudioSegment 2 11025 1 (repeat 0 p)).
  destruct (set_channels_mono_succeeds pad chans eq_refl Hc) as [s1 Hs1].
  pose proof (set_channels_mono_length pad chans s1 eq_refl Hc Hs1) as Hl1.
  destruct (set_channels_format pad chans s1 Hs1) as (Hc1 & Hr1 & Hw1).
  simpl in Hl1, Hr1, Hw1. rewrite repeat_length in Hl1.
  unfold convert. rewrite Hs1. simpl bind.
  eexists. 
  assert (HE : exists E,
    Z.of_nat (List.length (data (set_frame_rate s1 rate))) = E * chans /\
    ((rate = 11025 /\ E = Z.of_nat p) \/
     (p = 0%nat /\ E = 0) \/
     (0 < Z.of_nat p /\
      (Z.of_nat p - 1) * rate < E * 11025 <= (Z.of_nat p - 1) * rate + 11025))).
  { unfold set_frame_rate. rewrite Hr1.
    destruct (rate =? 11025) eqn:E.
    - apply Z.eqb_eq in E. exists (Z.of_nat p). split; [exact Hl1 | now left].
    - apply Z.eqb_neq in E. destruct p as [|p'].
      + exists 0. assert (Hnil : data s1 = []).
        { destruct (data s1); [reflexivity | simpl in Hl1; lia]. }
        rewrite Hnil. simpl. split; [lia | right; left; split; reflexivity].
      + assert (Hlen : List.length (data s1) = (S p' * Z.to_nat chans)%nat) by nia.
        destruct (ratecv_length (data s1) (sample_width s1) (Z.to_nat chans) 11025 rate p'
                    ltac:(lia) ltac:(lia) Hlen) as (E' & HE1 & HE2).
        rewrite Z2Nat.id in HE1 by lia.
        exists E'. 
        destruct (data s1) as [|v d1] eqn:Ed; [simpl in Hlen; lia|].
        rewrite Hc1. simpl data. split; [exact HE1|].
        right; right. split; [lia|].
        replace (Z.of_nat (S p') - 1) with (Z.of_nat p') by lia. exact HE2. }
  destruct HE as (E & HE1 & HE2). exists E.
  split; [reflexivity|]. rewrite set_sample_width_length. split; assumption.
Qed.

Lemma py_round_div_unique (a b q : Z) :
  0 <= a -> 0 < b -> Z.abs (2 * a - 2 * b * q) < b -> py_round_div a b = q.
Proof.
  intros Ha Hb Hq.
  destruct (py_round_div_bounds a b Ha Hb) as (_ & H1 & H2).
  assert (Z.abs (py_round_div a b - q) < 1) by nia. lia.
Qed.

Lemma normalize_len seg : len (normalize seg) = len seg.
Proof.
  destruct (normalize_format seg) as (_ & Hr & Hc).
  unfold len, frame_count. now rewrite normalize_length, Hr, Hc.
Qed.

(** The frames of a processed chunk: those of the segment, then [E]
    frames of padding. *)
Lemma process_chunk_frames chunk m :
  well_formed chunk -> 11025 <= frame_rate chunk ->
  let p := Z.to_nat (Z.quot (11025 * (len chunk * m)) 1000) in
  exists out E,
    process_chunk chunk m = Return out /\
    frame_rate out = frame_rate chunk /\
    channels out = channels chunk /\
    frame_count out = frame_count chunk + E /\
    ((frame_rate chunk = 11025 /\ E = Z.of_nat p) \/
     (p = 0%nat /\ E = 0) \/
     (0 < Z.of_nat p /\
      (Z.of_nat p - 1) * frame_rate chunk < E * 11025
        <= (Z.of_nat p - 1) * frame_rate chunk + 11025)).
Proof.
  intros Hwf Hr p.
  destruct (normalize_format chunk) as (Hnw & Hnr & Hnc).
  pose proof (wf_channels _ Hwf) as Hc.
  unfold process_chunk. rewrite normalize_len. unfold silent, silent_at. fold p.
  set (nc := normalize chunk) in *.
  set (width := Z.max (sample_width nc) 2).
  destruct (pad_convert_frames p (channels chunk) (frame_rate chunk) width Hc Hr)
    as (s2 & E & Hs2 & Hl2 & HE).
  assert (Hs1 : convert nc (channels chunk) (frame_rate chunk) width =
                Return (set_sample_width nc width)).
  { unfold convert. rewrite <- Hnc, set_channels_same. simpl bind.
    unfold set_frame_rate. rewrite <- Hnr, Z.eqb_refl. reflexivity. }
  exists (spawn (set_sample_width nc width) (data (set_sample_width nc width) ++ data s2)), E.
  split.
  - unfold append, sync. cbn [channels frame_rate sample_width].
    rewrite Hnc, Hnr.
    replace (Z.max (channels chunk) 1) with (channels chunk) by lia.
    replace (Z.max (frame_rate chunk) 11025) with (frame_rate chunk) by lia.
    fold width. rewrite Hs1. simpl bind. rewrite Hs2. reflexivity.
  - destruct (set_sample_width_format nc width) as (_ & Hc' & Hr').
    cbn [spawn frame_rate channels]. rewrite Hc', Hr', Hnc, Hnr.
    split; [reflexivity|]. split; [reflexivity|]. split; [|exact HE].
    unfold frame_count at 1. cbn [spawn data channels].
    rewrite Hc', Hnc, length_app, Nat2Z.inj_add, set_sample_width_length, Hl2.
    unfold nc. rewrite normalize_length, (frame_count_exact chunk Hwf).
    rewrite <- Z.mul_add_distr_r. apply Z.div_mul. lia.
Qed.

(** ** C2: the length of a processed chunk *)


Lemma chunk_99_frames_wf : well_formed chunk_99_frames.
Proof. split; simpl; [lia | lia | right; left; reflexivity | reflexivity]. Qed.

Lemma chunk_94_frames_wf : well_formed chunk_94_frames.
Proof. split; simpl; [lia | lia | right; left; reflexivity | reflexivity]. Qed.



(** ** Slices and lengths in milliseconds *)

(** A slice cut at millisecond offsets inside the data of a segment
    sampled above 2000 Hz is as long, in milliseconds, as the range it was
    cut at, and holds that many milliseconds to within one frame: the
    chunks the segmentation hands to [process_chunk] are of this kind. *)
Lemma getitem_inside seg start stop :
  well_formed seg -> 2000 < frame_rate seg ->
  0 <= start <= stop -> stop <= len seg ->
  parse_position seg stop <= frame_count seg ->
  exists c,
    getitem seg start stop = Return c /\
    same_format c seg /\
    frame_count c = parse_position seg stop - parse_position seg start /\
    len c = stop - start /\
    millisecond_aligned c.
Proof.
  intros Hwf Hr Hse Hlen Hin.
  pose proof (wf_channels _ Hwf) as Hc.
  pose proof (frame_count_exact seg Hwf) as Hn.
  destruct (parse_position_nonneg seg start) as (Ps & Ps0); [lia|lia|].
  destruct (parse_position_nonneg seg stop) as (Pe & Pe0); [lia|lia|].
  assert (Hps : 1000 * parse_position seg start <= start * frame_rate seg
                  < 1000 * parse_position seg start + 1000).
  { rewrite Ps. pose proof (Z.div_mod (start * frame_rate seg) 1000 ltac:(lia)).
    pose proof (Z.mod_pos_bound (start * frame_rate seg) 1000 ltac:(lia)). lia. }
  assert (Hpe : 1000 * parse_position seg stop <= stop * frame_rate seg
                  < 1000 * parse_position seg stop + 1000).
  { rewrite Pe. pose proof (Z.div_mod (stop * frame_rate seg) 1000 ltac:(lia)).
    pose proof (Z.mod_pos_bound (stop * frame_rate seg) 1000 ltac:(lia)). lia. }
  assert (Hmono : parse_position seg start <= parse_position seg stop).
  { rewrite Ps, Pe. apply Z.div_le_mono; nia. }
  unfold getitem.
  replace (Z.min start (len seg)) with start by lia.
  replace (Z.min stop (len seg)) with stop by lia.
  set (ps := parse_position seg start) in *.
  set (pe := parse_position seg stop) in *.
  set (d := py_slice (data seg) (ps * channels seg) (pe * channels seg)).
  assert (Hd : Z.of_nat (List.length d) = (pe - ps) * channels seg).
  { unfold d. rewrite py_slice_length by nia. rewrite Hn. nia. }
  rewrite Hd.
  replace (pe * channels seg - ps * channels seg - (pe - ps) * channels seg) with 0 by ring.
  rewrite Z.div_0_l by lia. cbn [Z.eqb].
  exists (spawn seg d).
  assert (Hfc : frame_count (spawn seg d) = pe - ps).
  { unfold frame_count. cbn [spawn data channels]. rewrite Hd. apply Z.div_mul. lia. }
  assert (Hl : len (spawn seg d) = stop - start).
  { unfold len. rewrite Hfc. cbn [spawn frame_rate].
    apply py_round_div_unique; [lia | lia | nia]. }
  split; [reflexivity|]. split; [repeat split|].
  split; [exact Hfc|]. split; [exact Hl|].
  unfold millisecond_aligned. rewrite Hfc, Hl. cbn [spawn frame_rate]. nia.
Qed.

(** Lengths in whole milliseconds are roundings and do not add up: two
    chunks of 4 frames at 11025 Hz are 0 ms long each, the 8 frames of
    their concatenation are 1 ms long. *)
Example concatenate_len_rounding :
  let c := mkAudioSegment 2 11025 1 [1; 2; 3; 4] in
  exists out,
    concatenate_chunks [c; c] = Return out /\
    len c = 0 /\ len out = 1 /\ frame_count out = frame_count c + frame_count c.
Proof.
  eexists. split; [reflexivity|]. repeat split.
Qed.

(** Two non-silent ranges 500 ms apart, each widened by 300 ms, meet in the
    middle of the gap; widened by 100 ms they stay apart. *)
Example pairwise_fix_overlap :
  pairwise_fix (map (fun r : Z * Z => (fst r - 300, snd r + 300))
                    [(0, 2000); (2500, 10000)])
  = [(-300, 2250); (2250, 10300)] /\
  pairwise_fix (map (fun r : Z * Z => (fst r - 100, snd r + 100))
                    [(0, 2000); (2500, 10000)])
  = [(-100, 2100); (2400, 10100)].
Proof. split; reflexivity. Qed.

(** * Further properties of main.py *)

(** ** The normalization step of [process_chunk] *)

Lemma max_fold_ge (l : list Z) : forall m,
  m <= fold_left (fun m v => Z.max m (Z.abs v)) l m /\
  Forall (fun v => Z.abs v <= fold_left (fun m v => Z.max m (Z.abs v)) l m) l.
Proof.
  induction l as [|v l IH]; simpl; intros m; [split; [lia | constructor]|].
  destruct (IH (Z.max m (Z.abs v))) as (H1 & H2). split; [lia|].
  constructor; [lia | exact H2].
Qed.

Lemma max_zero_silent seg : max seg = 0 -> Forall (fun v => v = 0) (data seg).
Proof.
  unfold max, Audioop.max. intros H.
  destruct (max_fold_ge (data seg) 0) as (_ & Hall). rewrite H in Hall.
  eapply Forall_impl; [|exact Hall]. simpl. intros v Hv. lia.
Qed.

Lemma sample_range_width width :
  width = 1 \/ width = 2 \/ width = 4 ->
  Audioop.minval width + 1 <= 0 <= Audioop.maxval width.
Proof. intros [ -> | [ -> | -> ] ]; vm_compute; split; discriminate. Qed.

Lemma fbound_range val width :
  width = 1 \/ width = 2 \/ width = 4 ->
  in_sample_range width (Audioop.fbound val width).
Proof.
  intros Hw. pose proof (sample_range_width width Hw) as Hr.
  unfold in_sample_range, Audioop.fbound.
  destruct (Rlt_dec _ _) as [H1|H1]; [lia|].
  destruct (Rlt_dec _ _) as [H2|H2]; [lia|].
  pose proof (Zfloor_bound val) as (Hb & _). split.
  - assert (Audioop.minval width + 1 <= Zfloor val); [|lia].
    apply Zfloor_lub. rewrite plus_IZR. lra.
  - apply le_IZR. lra.
Qed.

(** X1.  The normalization step keeps the format and the number of samples of
    the chunk, hence its length, and leaves every sample within the
    range of the sample width: gain is applied with clipping. *)
Theorem normalize_keeps_shape (chunk : AudioSegment) :
  well_formed chunk ->
  same_format (normalize chunk) chunk /\
  List.length (data (normalize chunk)) = List.length (data chunk) /\
  len (normalize chunk) = len chunk /\
  well_formed (normalize chunk) /\
  Forall (in_sample_range (sample_width chunk)) (data (normalize chunk)).
Proof.
  intros Hwf.
  pose proof (normalize_format chunk) as Hf. pose proof Hf as (Hw & Hr & Hc).
  split; [exact Hf|]. split; [apply normalize_length|].
  split; [apply normalize_len|]. split.
  - split; rewrite ?Hw, ?Hr, ?Hc, ?normalize_length; apply Hwf.
  - pose proof (sample_range_width _ (wf_width _ Hwf)) as Hrange.
    destruct (Z.eq_dec (max chunk) 0) as [H0|H0].
    + assert (Hn : normalize chunk = chunk).
      { unfold normalize, normalize_headroom. now rewrite H0. }
      rewrite Hn. eapply Forall_impl; [|exact (max_zero_silent chunk H0)].
      simpl. intros v ->. unfold in_sample_range. lia.
    + rewrite (normalize_gain chunk Hwf H0). simpl. unfold Audioop.mul.
      apply Forall_forall. intros v Hv. apply in_map_iff in Hv as (u & <- & _).
      apply fbound_range. apply Hwf.
Qed.

Lemma normalize_keeps_shape_witness :
  same_format (normalize chunk_peak) chunk_peak /\
  List.length (data (normalize chunk_peak)) = List.length (data chunk_peak) /\
  len (normalize chunk_peak) = len chunk_peak /\
  well_formed (normalize chunk_peak) /\
  Forall (in_sample_range (sample_width chunk_peak)) (data (normalize chunk_peak)).
Proof. apply (normalize_keeps_shape chunk_peak). exact chunk_peak_wf. Defined.

(** ** The padding of [process_chunk] *)

Lemma silent_len (duration : Z) : len (silent duration) = Z.max 0 duration.
Proof.
  unfold silent, silent_at, len, frame_count. cbn [data channels frame_rate].
  rewrite repeat_length, Z.div_1_r.
  destruct (Z.le_gt_cases 0 duration) as [Hd|Hd].
  - rewrite Z.quot_div_nonneg by lia.
    pose proof (Z.div_mod (11025 * duration) 1000 ltac:(lia)).
    pose proof (Z.mod_pos_bound (11025 * duration) 1000 ltac:(lia)).
    assert (0 <= 11025 * duration / 1000) by (apply Z.div_pos; lia).
    rewrite Z2Nat.id by lia.
    apply py_round_div_unique; lia.
  - assert (Hq : Z.quot (11025 * duration) 1000 <= 0).
    { rewrite <- (Z.opp_involutive (11025 * duration)), Z.quot_opp_l by lia.
      assert (0 <= Z.quot (- (11025 * duration)) 1000) by (apply Z.quot_pos; lia). lia. }
    replace (Z.to_nat (Z.quot (11025 * duration) 1000)) with 0%nat by lia.
    replace (Z.max 0 duration) with 0 by lia. reflexivity.
Qed.

(** X2.  The padding [process_chunk] synthesizes is exactly
    len(chunk) * silence_multiplier milliseconds long, whatever the sample
    rate of the chunk, and empty when that product is not positive. *)
Theorem padding_length (chunk : AudioSegment) (silence_multiplier : Z) :
  len (silence_chunk chunk silence_multiplier)
  = Z.max 0 (len chunk * silence_multiplier) /\
  (len chunk * silence_multiplier <= 0 ->
   data (silence_chunk chunk silence_multiplier) = []).
Proof.
  unfold silence_chunk. rewrite normalize_len, silent_len. split; [reflexivity|].
  intros Hd. unfold silent, silent_at. cbn [data].
  assert (Hq : Z.quot (11025 * (len chunk * silence_multiplier)) 1000 <= 0).
  { set (D := len chunk * silence_multiplier) in *.
    rewrite <- (Z.opp_involutive (11025 * D)), Z.quot_opp_l by lia.
    assert (0 <= Z.quot (- (11025 * D)) 1000) by (apply Z.quot_pos; lia). lia. }
  replace (Z.to_nat _) with 0%nat by lia. reflexivity.
Qed.

(** ** Silence and whole frames through the conversions *)

Lemma Forall_firstn {A : Type} (P : A -> Prop) (n : nat) : forall l,
  Forall P l -> Forall P (firstn n l).
Proof.
  induction n as [|n IH]; intros l H; simpl; [constructor|].
  destruct l as [|a l]; [constructor|]. inversion H; subst.
  constructor; auto.
Qed.

Lemma Forall_skipn {A : Type} (P : A -> Prop) (n : nat) : forall l,
  Forall P l -> Forall P (skipn n l).
Proof.
  induction n as [|n IH]; intros l H; simpl; [exact H|].
  destruct l as [|a l]; [constructor|]. inversion H; subst. auto.
Qed.

Lemma Forall_zero_repeat (n : nat) : Forall (fun v : Z => v = 0) (repeat 0 n).
Proof. apply Forall_forall. intros v Hv. now apply repeat_spec in Hv. Qed.

Lemma interpolate_zeros width outrate d prev cur :
  Forall (fun v => v = 0) prev -> Forall (fun v => v = 0) cur ->
  Forall (fun v => v = 0) (Audioop.interpolate width outrate d prev cur).
Proof.
  intros Hp Hc. unfold Audioop.interpolate. apply Forall_forall.
  intros v Hv. apply in_map_iff in Hv as ([p c] & <- & Hin).
  rewrite Forall_forall in Hp, Hc.
  rewrite (Hp p (in_combine_l _ _ _ _ Hin)), (Hc c (in_combine_r _ _ _ _ Hin)).
  rewrite Z.shiftl_0_l, !Z.mul_0_l.
  change (Z.quot (0 + 0) outrate) with 0. apply Z.shiftr_0_l.
Qed.

Lemma emit_zeros (k : nat) width inrate outrate prev cur : forall d,
  Forall (fun v => v = 0) prev -> Forall (fun v => v = 0) cur ->
  Forall (fun v => v = 0) (Audioop.emit k width inrate outrate d prev cur).
Proof.
  induction k as [|k IH]; simpl; intros d Hp Hc; [constructor|].
  apply Forall_app. split; [now apply interpolate_zeros | now apply IH].
Qed.

Lemma ratecv_loop_zeros width nchannels inrate outrate (n : nat) :
  forall fragment d cur,
  Forall (fun v => v = 0) fragment -> Forall (fun v => v = 0) cur ->
  Forall (fun v => v = 0)
    (Audioop.ratecv_loop n fragment width nchannels inrate outrate d cur).
Proof.
  induction n as [|n IH]; intros fragment d cur Hf Hc; [constructor|].
  cbn [Audioop.ratecv_loop]. apply Forall_app. split.
  - apply emit_zeros; [exact Hc | now apply Forall_firstn].
  - apply IH; [now apply Forall_skipn | now apply Forall_firstn].
Qed.

Lemma ratecv_zeros fragment width nchannels inrate outrate :
  Forall (fun v => v = 0) fragment ->
  Forall (fun v => v = 0) (Audioop.ratecv fragment width nchannels inrate outrate).
Proof.
  intros Hf. unfold Audioop.ratecv.
  apply ratecv_loop_zeros; [exact Hf | apply Forall_zero_repeat].
Qed.

Lemma set_channels_mono_zeros seg chans seg' :
  channels seg = 1 -> Forall (fun v => v = 0) (data seg) ->
  set_channels seg chans = Return seg' -> Forall (fun v => v = 0) (data seg').
Proof.
  intros H1 Hz. unfold set_channels. rewrite H1.
  destruct (chans =? 1); [intros H; inversion H; subst; exact Hz|].
  destruct (chans =? 2); simpl.
  - intros H; inversion H; subst. simpl. unfold Audioop.tostereo.
    apply Forall_flat_map. eapply Forall_impl; [|exact Hz].
    simpl. intros v ->. repeat constructor.
  - destruct (chans <=? 0); [discriminate|].
    intros H; inversion H; subst. simpl.
    apply Forall_flat_map. eapply Forall_impl; [|exact Hz].
    simpl. intros v ->. apply Forall_zero_repeat.
Qed.

Lemma set_frame_rate_zeros seg rate :
  Forall (fun v => v = 0) (data seg) ->
  Forall (fun v => v = 0) (data (set_frame_rate seg rate)).
Proof.
  intros Hz. unfold set_frame_rate.
  destruct (rate =? frame_rate seg); [exact Hz|]. simpl.
  destruct (data seg) eqn:E; [constructor|]. rewrite <- E in *.
  now apply ratecv_zeros.
Qed.

Lemma set_sample_width_zeros seg width :
  Forall (fun v => v = 0) (data seg) ->
  Forall (fun v => v = 0) (data (set_sample_width seg width)).
Proof.
  intros Hz. unfold set_sample_width.
  destruct (width =? sample_width seg); [exact Hz|]. simpl.
  unfold Audioop.lin2lin. apply Forall_map.
  eapply Forall_impl; [|exact Hz]. simpl. intros v ->.
  rewrite Z.shiftl_0_l. apply Z.shiftr_0_l.
Qed.

(** Converting a silent mono segment gives silence. *)
Lemma convert_mono_zeros seg chans rate width seg' :
  channels seg = 1 -> Forall (fun v => v = 0) (data seg) ->
  convert seg chans rate width = Return seg' -> Forall (fun v => v = 0) (data seg').
Proof.
  intros H1 Hz H. unfold convert in H.
  apply bind_Return_inv in H as (s1 & Hs1 & H). inversion H; subst.
  apply set_sample_width_zeros, set_frame_rate_zeros.
  exact (set_channels_mono_zeros _ _ _ H1 Hz Hs1).
Qed.

(** A conversion that only widens (more channels, a higher rate) returns
    whole frames. *)
Lemma convert_frames seg chans rate width seg' :
  well_formed seg -> channels seg <= chans -> frame_rate seg <= rate ->
  convert seg chans rate width = Return seg' ->
  exists E, 0 <= E /\ Z.of_nat (List.length (data seg')) = E * chans.
Proof.
  intros Hwf Hc Hr H. unfold convert in H.
  apply bind_Return_inv in H as (s1 & Hs1 & H). inversion H; subst; clear H.
  pose proof (wf_channels _ Hwf) as Hc0. pose proof (wf_rate _ Hwf) as Hr0.
  pose proof (frame_count_exact seg Hwf) as Hn.
  pose proof (frame_count_nonneg seg Hwf) as Hn0.
  destruct (set_channels_format _ _ _ Hs1) as (Hc1 & Hr1 & Hw1).
  assert (H1 : exists n1, 0 <= n1 /\ Z.of_nat (List.length (data s1)) = n1 * chans).
  { destruct (Z.eq_dec chans (channels seg)) as [E|E].
    - subst chans. rewrite E, set_channels_same in Hs1. inversion Hs1; subst s1.
      exists (frame_count seg). split; assumption.
    - assert (Hmono : channels seg = 1).
      { unfold set_channels in Hs1.
        destruct (chans =? channels seg) eqn:E0; [apply Z.eqb_eq in E0; lia|].
        destruct (channels seg =? 1) eqn:E1; [now apply Z.eqb_eq in E1|].
        rewrite andb_false_r in Hs1.
        destruct (chans =? 1) eqn:E2; [apply Z.eqb_eq in E2; lia|].
        simpl in Hs1. discriminate. }
      exists (Z.of_nat (List.length (data seg))). split; [lia|].
      apply (set_channels_mono_length seg chans s1 Hmono); [lia | exact Hs1]. }
  destruct H1 as (n1 & Hn1 & Hl1).
  rewrite set_sample_width_length.
  unfold set_frame_rate. rewrite Hr1.
  destruct (rate =? frame_rate seg) eqn:E; [eauto|].
  apply Z.eqb_neq in E. cbn [data].
  destruct (data s1) as [|v d1] eqn:Ed; [exists 0; simpl; lia|]. rewrite <- Ed in *.
  assert (Hpos : 0 < n1).
  { rewrite Ed in Hl1. simpl List.length in Hl1. nia. }
  assert (Hlen : List.length (data s1) = (S (Z.to_nat (n1 - 1)) * Z.to_nat chans)%nat) by nia.
  destruct (ratecv_length (data s1) (sample_width s1) (Z.to_nat chans)
              (frame_rate seg) rate (Z.to_nat (n1 - 1))
              ltac:(lia) ltac:(lia) Hlen) as (E' & HE1 & HE2).
  rewrite Z2Nat.id in HE1 by lia. rewrite Hc1.
  exists E'. split; [nia | exact HE1].
Qed.

Lemma append_well_formed a b out :
  well_formed a -> well_formed b -> append a b = Return out -> well_formed out.
Proof.
  intros Ha Hb H. pose proof (append_format a b out H) as (Hc & Hr & Hw).
  unfold append, sync in H.
  apply bind_Return_inv in H as (p & Hp & Hout).
  apply bind_Return_inv in Hp as (s1 & Hs1 & Hp).
  apply bind_Return_inv in Hp as (s2 & Hs2 & Hp).
  inversion Hp; subst; clear Hp. inversion Hout; subst; clear Hout.
  cbn [fst snd] in *.
  destruct (convert_frames _ _ _ _ _ Ha (Z.le_max_l _ _) (Z.le_max_l _ _) Hs1)
    as (E1 & _ & HE1).
  destruct (convert_frames _ _ _ _ _ Hb (Z.le_max_r _ _) (Z.le_max_r _ _) Hs2)
    as (E2 & _ & HE2).
  pose proof (wf_channels _ Ha). pose proof (wf_channels _ Hb).
  pose proof (wf_rate _ Ha). pose proof (wf_rate _ Hb).
  split.
  - lia.
  - lia.
  - rewrite Hw. destruct (wf_width _ Ha) as [Wa|[Wa|Wa]],
      (wf_width _ Hb) as [Wb|[Wb|Wb]]; rewrite Wa, Wb; simpl; auto.
  - rewrite Hc. cbn [spawn data].
    rewrite length_app, Nat2Z.inj_add, HE1, HE2, <- Z.mul_add_distr_r.
    apply Z.mod_mul. lia.
Qed.

Lemma silent_wf duration : well_formed (silent duration).
Proof.
  split; simpl; [lia | lia | right; left; reflexivity | apply Z.mod_1_r].
Qed.

Lemma normalize_wf chunk : well_formed chunk -> well_formed (normalize chunk).
Proof.
  intros Hwf. destruct (normalize_format chunk) as (Hw & Hr & Hc).
  split; rewrite ?Hw, ?Hr, ?Hc, ?normalize_length; apply Hwf.
Qed.

Lemma process_chunk_wf chunk m :
  well_formed chunk ->
  exists out, process_chunk chunk m = Return out /\ well_formed out /\
    channels out = channels chunk /\
    frame_rate out = Z.max (frame_rate chunk) 11025 /\
    sample_width out = Z.max (sample_width chunk) 2.
Proof.
  intros Hwf. rewrite process_chunk_unfold.
  destruct (normalize_format chunk) as (Hw & Hr & Hc).
  pose proof (wf_channels _ Hwf) as Hc0.
  destruct (append_mono_succeeds (normalize chunk) (silence_chunk chunk m))
    as [out Hout]; [rewrite Hc; exact Hc0 | reflexivity |].
  exists out. split; [exact Hout|]. split.
  - eapply append_well_formed; [| |exact Hout].
    + now apply normalize_wf.
    + apply silent_wf.
  - apply append_format in Hout as (Hoc & Hor & How).
    rewrite Hoc, Hor, How, Hw, Hr, Hc.
    change (channels (silence_chunk chunk m)) with 1.
    change (frame_rate (silence_chunk chunk m)) with 11025.
    change (sample_width (silence_chunk chunk m)) with 2.
    repeat split; lia.
Qed.

(** ** [process_chunk]: what is returned *)

(** X3.  [process_chunk] never raises on a well-formed chunk, for any
    multiplier, and what it returns is again well-formed: whole frames
    at a positive rate and channel count, in 16-bit samples at least. *)
Theorem process_chunk_total (chunk : AudioSegment) (silence_multiplier : Z) :
  well_formed chunk ->
  exists out,
    process_chunk chunk silence_multiplier = Return out /\
    well_formed out /\
    2 <= sample_width out.
Proof.
  intros Hwf.
  destruct (process_chunk_wf chunk silence_multiplier Hwf)
    as (out & Hout & Hwfo & _ & _ & Hw).
  exists out. split; [exact Hout|]. split; [exact Hwfo | lia].
Qed.

Lemma process_chunk_total_witness :
  exists out,
    process_chunk chunk_peak 2 = Return out /\ well_formed out /\ 2 <= sample_width out.
Proof. apply (process_chunk_total chunk_peak 2). exact chunk_peak_wf. Defined.

Lemma process_chunk_shape chunk m :
  well_formed chunk -> 11025 <= frame_rate chunk -> 2 <= sample_width chunk ->
  exists zeros,
    process_chunk chunk m
    = Return (spawn (normalize chunk) (data (normalize chunk) ++ zeros)) /\
    Forall (fun v => v = 0) zeros /\
    (len chunk * m <= 0 -> zeros = []).
Proof.
  intros Hwf Hr Hw2.
  destruct (normalize_format chunk) as (Hnw & Hnr & Hnc).
  pose proof (wf_channels _ Hwf) as Hc.
  set (nc := normalize chunk) in *.
  set (pad := silence_chunk chunk m).
  destruct (set_channels_mono_succeeds pad (channels chunk) eq_refl Hc) as [p1 Hp1].
  set (s2 := set_sample_width (set_frame_rate p1 (frame_rate chunk)) (sample_width chunk)).
  assert (Hs2 : convert pad (channels chunk) (frame_rate chunk) (sample_width chunk)
                = Return s2).
  { unfold convert. rewrite Hp1. reflexivity. }
  assert (Hs1 : convert nc (channels chunk) (frame_rate chunk) (sample_width chunk)
                = Return nc).
  { rewrite <- Hnc, <- Hnr, <- Hnw. apply convert_same. }
  exists (data s2). split; [|split].
  - rewrite process_chunk_unfold. fold nc pad. unfold append, sync.
    rewrite Hnc, Hnr, Hnw.
    change (channels pad) with 1. change (frame_rate pad) with 11025.
    change (sample_width pad) with 2.
    replace (Z.max (channels chunk) 1) with (channels chunk) by lia.
    replace (Z.max (frame_rate chunk) 11025) with (frame_rate chunk) by lia.
    replace (Z.max (sample_width chunk) 2) with (sample_width chunk) by lia.
    rewrite Hs1. simpl bind. rewrite Hs2. reflexivity.
  - apply (convert_mono_zeros pad (channels chunk) (frame_rate chunk)
             (sample_width chunk) s2 eq_refl); [|exact Hs2].
    unfold pad, silence_chunk, silent, silent_at. cbn [data].
    apply Forall_zero_repeat.
  - intros Hd. apply (convert_nil pad (channels chunk) (frame_rate chunk)
                        (sample_width chunk) s2); [|exact Hs2].
    unfold pad, silence_chunk. rewrite normalize_len.
    unfold silent, silent_at. cbn [data].
    assert (Hq : Z.quot (11025 * (len chunk * m)) 1000 <= 0).
    { set (D := len chunk * m) in *.
      rewrite <- (Z.opp_involutive (11025 * D)), Z.quot_opp_l by lia.
      assert (0 <= Z.quot (- (11025 * D)) 1000) by (apply Z.quot_pos; lia). lia. }
    replace (Z.to_nat _) with 0%nat by lia. reflexivity.
Qed.

(** X4.  For a chunk sampled at 11025 Hz or more in samples of 16 bits or
    more, the chunk returned is the normalized chunk, sample for sample,
    followed by zero samples only. *)
Theorem process_chunk_content (chunk : AudioSegment) (silence_multiplier : Z) :
  well_formed chunk -> 11025 <= frame_rate chunk -> 2 <= sample_width chunk ->
  exists out zeros,
    process_chunk chunk silence_multiplier = Return out /\
    same_format out chunk /\
    data out = data (normalize chunk) ++ zeros /\
    Forall (fun v => v = 0) zeros.
Proof.
  intros Hwf Hr Hw.
  destruct (process_chunk_shape chunk silence_multiplier Hwf Hr Hw)
    as (zeros & Hout & Hz & _).
  exists (spawn (normalize chunk) (data (normalize chunk) ++ zeros)), zeros.
  split; [exact Hout|]. split; [exact (normalize_format chunk)|].
  split; [reflexivity | exact Hz].
Qed.

Lemma process_chunk_content_witness :
  exists out zeros,
    process_chunk chunk_99_frames 2 = Return out /\
    same_format out chunk_99_frames /\
    data out = data (normalize chunk_99_frames) ++ zeros /\
    Forall (fun v => v = 0) zeros.
Proof.
  apply (process_chunk_content chunk_99_frames 2 chunk_99_frames_wf); simpl; lia.
Defined.

(** X5.  With a multiplier of 0 or less, or for a chunk of length 0 ms, nothing
    is appended: [process_chunk] returns the normalized chunk itself. *)
Theorem process_chunk_no_padding (chunk : AudioSegment) (silence_multiplier : Z) :
  well_formed chunk -> 11025 <= frame_rate chunk -> 2 <= sample_width chunk ->
  len chunk * silence_multiplier <= 0 ->
  process_chunk chunk silence_multiplier = Return (normalize chunk).
Proof.
  intros Hwf Hr Hw Hd.
  destruct (process_chunk_shape chunk silence_multiplier Hwf Hr Hw)
    as (zeros & Hout & _ & Hnil).
  rewrite Hout, (Hnil Hd), app_nil_r. now destruct (normalize chunk).
Qed.

Lemma process_chunk_no_padding_witness :
  process_chunk chunk_99_frames 0 = Return (normalize chunk_99_frames) /\
  process_chunk chunk_99_frames (-3) = Return (normalize chunk_99_frames).
Proof.
  split.
  - apply (process_chunk_no_padding chunk_99_frames 0 chunk_99_frames_wf);
      simpl; lia.
  - apply (process_chunk_no_padding chunk_99_frames (-3) chunk_99_frames_wf);
      [simpl; lia | simpl; lia |].
    change (len chunk_99_frames) with 9. lia.
Defined.

(** ** [process_chunks] and its composition with [concatenate_chunks] *)

Lemma mapM_Forall2 {A B : Type} (f : A -> pyresult B) (P : A -> B -> Prop) (l : list A) :
  (forall a, In a l -> exists b, f a = Return b /\ P a b) ->
  exists bs, mapM f l = Return bs /\ Forall2 P l bs.
Proof.
  induction l as [|a l IH]; simpl; intros H.
  - exists []. split; [reflexivity | constructor].
  - destruct (H a (or_introl eq_refl)) as (b & Hb & HP).
    destruct IH as (bs & Hbs & HF); [intros; apply H; now right|].
    exists (b :: bs). rewrite Hb, Hbs. split; [reflexivity | now constructor].
Qed.

Lemma Forall2_In_r {A B : Type} (P : A -> B -> Prop) (l : list A) (bs : list B) (b : B) :
  Forall2 P l bs -> In b bs -> exists a, In a l /\ P a b.
Proof.
  induction 1 as [|a b' l bs HP HF IH]; intros Hin; [destruct Hin|].
  destruct Hin as [->|Hin].
  - exists a. split; [now left | exact HP].
  - destruct (IH Hin) as (a' & Ha' & HP'). exists a'. split; [now right | exact HP'].
Qed.

Lemma process_chunks_spec chunks m :
  Forall well_formed chunks ->
  exists processed,
    process_chunks chunks m = Return processed /\
    Forall2 (processed_from m) chunks processed.
Proof.
  intros Hwf. unfold process_chunks. apply mapM_Forall2.
  intros c Hc. rewrite Forall_forall in Hwf.
  destruct (process_chunk_wf c m (Hwf c Hc)) as (p & H). exists p.
  split; [apply H | exact H].
Qed.

(** X6.  [process_chunks] never raises on well-formed chunks: it returns one
    processed chunk per input chunk, in the same order, each the result of
    [process_chunk] on the chunk at the same position. *)
Theorem process_chunks_total (chunks : list AudioSegment) (silence_multiplier : Z) :
  Forall well_formed chunks ->
  exists processed,
    process_chunks chunks silence_multiplier = Return processed /\
    List.length processed = List.length chunks /\
    Forall2 (processed_from silence_multiplier) chunks processed.
Proof.
  intros Hwf.
  destruct (process_chunks_spec chunks silence_multiplier Hwf) as (processed & H1 & H2).
  exists processed. split; [exact H1|]. split; [|exact H2].
  symmetry. exact (Forall2_length H2).
Qed.

Lemma process_chunks_total_witness :
  exists processed,
    process_chunks [chunk_peak; chunk_99_frames] 2 = Return processed /\
    List.length processed = List.length [chunk_peak; chunk_99_frames] /\
    Forall2 (processed_from 2) [chunk_peak; chunk_99_frames] processed.
Proof.
  apply (process_chunks_total [chunk_peak; chunk_99_frames] 2).
  apply Forall_cons; [exact chunk_peak_wf|].
  apply Forall_cons; [exact chunk_99_frames_wf | apply Forall_nil].
Defined.

Lemma processed_matching chunks processed m :
  matching_formats chunks -> Forall2 (processed_from m) chunks processed ->
  matching_formats processed /\ Forall well_formed processed.
Proof.
  intros Hm HF. split.
  - intros p p' Hp Hp'.
    destruct (Forall2_In_r _ _ _ _ HF Hp) as (c & Hc & _ & _ & Pc & Pr & Pw).
    destruct (Forall2_In_r _ _ _ _ HF Hp') as (c' & Hc' & _ & _ & Pc' & Pr' & Pw').
    destruct (Hm c c' Hc Hc') as (Hw & Hr & Hch).
    unfold same_format. rewrite Pc, Pr, Pw, Pc', Pr', Pw', Hw, Hr, Hch. auto.
  - apply Forall_forall. intros p Hp.
    destruct (Forall2_In_r _ _ _ _ HF Hp) as (c & _ & _ & Hwf & _). exact Hwf.
Qed.

(** X7.  Processing chunks of one format and concatenating the results never
    raises: the output is a well-formed segment holding the samples of the
    processed chunks in order, and its frame count is the sum of theirs. *)
Theorem process_then_concatenate (chunks : list AudioSegment) (silence_multiplier : Z) :
  Forall well_formed chunks -> matching_formats chunks ->
  exists processed out,
    process_chunks chunks silence_multiplier = Return processed /\
    concatenate_chunks processed = Return out /\
    data out = List.concat (map data processed) /\
    frame_count out = sumZ frame_count processed /\
    well_formed out.
Proof.
  intros Hwf Hm.
  destruct (process_chunks_spec chunks silence_multiplier Hwf) as (processed & H1 & H2).
  destruct (processed_matching _ _ _ Hm H2) as (Hpm & Hpwf).
  exists processed. destruct processed as [|p processed].
  - exists empty. split; [exact H1|]. repeat split; simpl; try reflexivity; lia || auto.
  - assert (Hp : well_formed p) by (inversion Hpwf; assumption).
    exists (spawn p (List.concat (map data (p :: processed)))).
    assert (Hall : forall c', In c' (p :: processed) ->
                     well_formed c' /\ channels c' = channels p).
    { intros c' Hc'. split.
      - rewrite Forall_forall in Hpwf. now apply Hpwf.
      - destruct (Hpm c' p Hc' (or_introl eq_refl)) as (_ & _ & H). exact H. }
    destruct (frame_count_concat p (p :: processed) (wf_channels _ Hp) Hall)
      as (Hfc & Hmod).
    split; [exact H1|]. split; [now apply concatenate_chunks_matching|].
    split; [reflexivity|]. split; [exact Hfc|].
    split; cbn [spawn frame_rate channels sample_width data]; try apply Hp.
    exact Hmod.
Qed.

Lemma process_then_concatenate_witness :
  exists processed out,
    process_chunks [chunk_99_frames; chunk_94_frames] 2 = Return processed /\
    concatenate_chunks processed = Return out /\
    data out = List.concat (map data processed) /\
    frame_count out = sumZ frame_count processed /\
    well_formed out.
Proof.
  apply (process_then_concatenate [chunk_99_frames; chunk_94_frames] 2).
  - apply Forall_cons; [exact chunk_99_frames_wf|].
    apply Forall_cons; [exact chunk_94_frames_wf | apply Forall_nil].
  - intros a b [<-|[<-|[]]] [<-|[<-|[]]]; repeat split.
Defined.

(** ** [concatenate_chunks] on chunks of any formats *)

Lemma concatenate_from_format chunks : forall acc out,
  concatenate_from acc chunks = Return out ->
  frame_rate out = fold_left (fun m c => Z.max m (frame_rate c)) chunks (frame_rate acc) /\
  channels out = fold_left (fun m c => Z.max m (channels c)) chunks (channels acc) /\
  sample_width out
  = fold_left (fun m c => Z.max m (sample_width c)) chunks (sample_width acc).
Proof.
  induction chunks as [|c chunks IH]; simpl; intros acc out H.
  - inversion H; subst. auto.
  - apply bind_Return_inv in H as (acc' & Hacc & H).
    apply append_format in Hacc as (Hc & Hr & Hw).
    destruct (IH _ _ H) as (IH1 & IH2 & IH3).
    rewrite IH1, IH2, IH3, Hc, Hr, Hw. auto.
Qed.

Lemma concatenate_from_wf chunks : forall acc out,
  well_formed acc -> Forall well_formed chunks ->
  concatenate_from acc chunks = Return out -> well_formed out.
Proof.
  induction chunks as [|c chunks IH]; simpl; intros acc out Hacc Hwf H.
  - inversion H; subst. exact Hacc.
  - inversion Hwf as [|? ? Hc Hcs]; subst.
    apply bind_Return_inv in H as (acc' & Ha & H).
    apply (IH acc' out); [|exact Hcs|exact H].
    exact (append_well_formed acc c acc' Hacc Hc Ha).
Qed.

Lemma empty_wf : well_formed empty.
Proof. split; simpl; [lia | lia | left; reflexivity | reflexivity]. Qed.

(** X8.  Whenever [concatenate_chunks] returns, for chunks of whatever formats,
    the segment returned has the largest sample rate, the largest channel
    count and the largest sample width found among the chunks (1 for an
    empty list), and it is well-formed if the chunks are. *)
Theorem concatenate_chunks_format (chunks : list AudioSegment) (out : AudioSegment) :
  concatenate_chunks chunks = Return out ->
  frame_rate out = largest frame_rate chunks /\
  channels out = largest channels chunks /\
  sample_width out = largest sample_width chunks /\
  (Forall well_formed chunks -> well_formed out).
Proof.
  intros H. unfold concatenate_chunks in H.
  destruct (concatenate_from_format chunks empty out H) as (H1 & H2 & H3).
  split; [exact H1|]. split; [exact H2|]. split; [exact H3|].
  intros Hwf. exact (concatenate_from_wf chunks empty out empty_wf Hwf H).
Qed.

Lemma concatenate_chunks_format_witness :
  let out := mkAudioSegment 2 11025 2 [1; 1; 2; 2; 3; 4] in
  frame_rate out = largest frame_rate [chunk_mono; chunk_stereo] /\
  channels out = largest channels [chunk_mono; chunk_stereo] /\
  sample_width out = largest sample_width [chunk_mono; chunk_stereo] /\
  (Forall well_formed [chunk_mono; chunk_stereo] -> well_formed out).
Proof.
  apply (concatenate_chunks_format [chunk_mono; chunk_stereo]). reflexivity.
Defined.

(** ** The chunks [split_audio_on_silence] returns *)

Lemma getitem_format seg start stop c :
  getitem seg start stop = Return c -> same_format c seg.
Proof.
  unfold getitem.
  repeat match goal with
         | |- context [if ?b then _ else _] => destruct b
         end; intros H; inversion H; subst; repeat split.
Qed.

Lemma concat_repeat_length (l : list Z) (k : nat) :
  List.length (List.concat (repeat l k)) = (k * List.length l)%nat.
Proof.
  induction k as [|k IH]; simpl; [reflexivity|].
  now rewrite length_app, IH.
Qed.

Lemma getitem_wf seg start stop c :
  well_formed seg -> 0 <= start -> 0 <= stop ->
  getitem seg start stop = Return c -> well_formed c.
Proof.
  intros Hwf Hs He H.
  destruct (getitem_format _ _ _ _ H) as (Hw & Hr & Hc).
  destruct (len_bounds seg Hwf) as (Hl & _).
  pose proof (wf_rate _ Hwf) as Hr0. pose proof (wf_channels _ Hwf) as Hc0.
  pose proof (frame_count_exact seg Hwf) as Hn.
  pose proof (frame_count_nonneg seg Hwf) as Hn0.
  split; rewrite ?Hw, ?Hr, ?Hc; try apply Hwf.
  unfold getitem in H.
  destruct (parse_position_nonneg seg (Z.min start (len seg))) as (_ & Ps0); [lia|lia|].
  destruct (parse_position_nonneg seg (Z.min stop (len seg))) as (_ & Pe0); [lia|lia|].
  set (ps := parse_position seg (Z.min start (len seg))) in *.
  set (pe := parse_position seg (Z.min stop (len seg))) in *.
  set (d := py_slice (data seg) (ps * channels seg) (pe * channels seg)) in *.
  set (k := Z.max 0 (Z.min pe (frame_count seg) - Z.min ps (frame_count seg))).
  assert (Hd : Z.of_nat (List.length d) = k * channels seg).
  { unfold d, k. rewrite py_slice_length by nia. rewrite Hn. nia. }
  destruct (_ =? 0) in H.
  - inversion H; subst. cbn [spawn data]. rewrite Hd. apply Z.mod_mul. lia.
  - destruct (_ <? _) in H; [discriminate|].
    inversion H; subst. cbn [spawn data].
    rewrite length_app, Nat2Z.inj_add, concat_repeat_length, Nat2Z.inj_mul.
    unfold Audioop.mul. rewrite length_map, length_firstn.
    destruct (Z.eq_dec k 0) as [Hk|Hk].
    + assert (List.length d = 0%nat) by lia.
      replace (Nat.min (Z.to_nat (channels seg)) (List.length d)) with 0%nat by lia.
      rewrite Hd, Hk. simpl. rewrite Z.mul_0_r. apply Zmod_0_l.
    + assert (channels seg <= Z.of_nat (List.length d)) by nia.
      replace (Z.of_nat (Nat.min (Z.to_nat (channels seg)) (List.length d)))
        with (channels seg) by lia.
      rewrite Hd, <- Z.mul_add_distr_r. apply Z.mod_mul. lia.
Qed.

Lemma mapM_Forall {A B : Type} (f : A -> pyresult B) (P : B -> Prop) (l : list A) :
  forall bs, mapM f l = Return bs ->
  (forall a b, In a l -> f a = Return b -> P b) -> Forall P bs.
Proof.
  induction l as [|a l IH]; simpl; intros bs H HP.
  - inversion H; subst. constructor.
  - apply bind_Return_inv in H as (b & Hb & H).
    apply bind_Return_inv in H as (bs' & Hbs & H). inversion H; subst.
    constructor; [apply (HP a b); auto|].
    apply IH; [exact Hbs|]. intros a' b' Ha'. apply HP. now right.
Qed.

Lemma split_chunks_wf seg msl thr keep :
  well_formed seg -> 0 <= msl -> 0 <= keep ->
  exists chunks,
    split_on_silence seg msl thr keep = Return chunks /\
    Forall (fun c => same_format c seg /\ well_formed c) chunks.
Proof.
  intros Hwf Hm Hk.
  destruct (split_on_silence_spec seg msl thr keep Hwf Hm Hk)
    as (N & O & chunks & _ & _ & Hsplit & Hmap & _ & _ & _ & HOs & _).
  exists chunks. split; [exact Hsplit|].
  apply (mapM_Forall _ _ O chunks Hmap). intros r c Hr Hc.
  pose proof (sorted_ranges_In O 0 (len seg) r HOs Hr) as Hb.
  split; [exact (getitem_format _ _ _ _ Hc)|].
  apply (getitem_wf seg (fst r) (snd r) c Hwf); [lia | lia | exact Hc].
Qed.

(** X9.  Every chunk [split_audio_on_silence] returns has the sample width,
    sample rate and channel count of the audio it was cut from and holds
    whole frames only; the call itself never raises. *)
Theorem split_chunks_keep_format
    (audio : AudioSegment) (min_silence_len : Z) (silence_thresh : pyfloat)
    (keep_silence : Z) :
  well_formed audio -> 0 <= min_silence_len -> 0 <= keep_silence ->
  exists chunks,
    split_audio_on_silence audio min_silence_len silence_thresh keep_silence
      = Return chunks /\
    Forall (fun c => same_format c audio /\ well_formed c) chunks /\
    matching_formats chunks.
Proof.
  intros Hwf Hm Hk.
  destruct (split_chunks_wf audio min_silence_len silence_thresh keep_silence Hwf Hm Hk)
    as (chunks & Hsplit & Hall).
  exists chunks. split; [exact Hsplit|]. split; [exact Hall|].
  intros a b Ha Hb. rewrite Forall_forall in Hall.
  destruct (Hall a Ha) as ((Aw & Ar & Ac) & _).
  destruct (Hall b Hb) as ((Bw & Br & Bc) & _).
  unfold same_format. rewrite Aw, Ar, Ac, Bw, Br, Bc. auto.
Qed.

Lemma split_chunks_keep_format_witness :
  exists chunks,
    split_audio_on_silence short_silence 200 NegInf 0 = Return chunks /\
    Forall (fun c => same_format c short_silence /\ well_formed c) chunks /\
    matching_formats chunks.
Proof.
  apply (split_chunks_keep_format short_silence 200 NegInf 0 short_silence_wf); lia.
Defined.

(** ** Silent and non-silent ranges *)

Lemma combine_ranges_wide msl starts : forall prev cur,
  cur <= prev -> increasing prev starts ->
  Forall (fun r : Z * Z => fst r + msl <= snd r) (combine_ranges msl starts prev cur).
Proof.
  induction starts as [|i starts IH]; simpl; intros prev cur Hc Hinc.
  - constructor; [simpl; lia | constructor].
  - destruct Hinc as (Hlt & Hinc).
    destruct (negb (i =? prev + 1) && (prev + msl <? i)).
    + constructor; [simpl; lia|]. apply IH; [lia | exact Hinc].
    + apply IH; [lia | exact Hinc].
Qed.

Lemma detect_silence_wide seg msl thr :
  well_formed seg -> 0 <= msl ->
  exists S,
    detect_silence seg msl thr = Return S /\
    silent_chain S (len seg) /\
    Forall (fun r : Z * Z => fst r + msl <= snd r) S.
Proof.
  intros Hwf Hm.
  destruct (detect_silence_spec seg msl thr Hwf Hm) as (S & HS & Hchain & _).
  exists S. split; [exact HS|]. split; [exact Hchain|].
  destruct (len seg <? msl) eqn:Hl.
  - unfold detect_silence in HS. rewrite Hl in HS. inversion HS. constructor.
  - rewrite detect_silence_unfold in HS by assumption.
    set (g := accepts _) in HS.
    assert (Hinc : increasing (-1) (filter g (py_range (len seg - msl + 1)))).
    { unfold py_range. apply filter_seq_increasing. simpl. lia. }
    destruct (filter g (py_range (len seg - msl + 1))) as [|prev_i rest].
    + inversion HS. constructor.
    + inversion HS. destruct Hinc as (_ & Hinc).
      apply combine_ranges_wide; [lia | exact Hinc].
Qed.

Lemma between_head S : forall b L last,
  between S b = (L, last) ->
  (L = [] /\ last = b) \/ (exists a tl, L = (b, a) :: tl).
Proof.
  destruct S as [|[a1 b1] S]; simpl; intros b L last H.
  - inversion H; subst. now left.
  - destruct (between S b1) as [L' last']. inversion H; subst. right. eauto.
Qed.

Lemma between_separated msl S : forall b L last x,
  Forall (fun r : Z * Z => fst r + msl <= snd r) S ->
  between S b = (L, last) ->
  separated msl (L ++ [(last, x)]) /\ separated msl L.
Proof.
  induction S as [|[a1 b1] S IH]; intros b L last x Hw HB.
  - simpl in HB. inversion HB; subst. simpl. auto.
  - simpl in HB. destruct (between S b1) as [L' last'] eqn:EB.
    inversion HB; subst; clear HB.
    inversion Hw as [|? ? Hw1 Hw']; subst. simpl in Hw1.
    destruct (IH b1 L' last x Hw' EB) as (IH1 & IH2).
    destruct (between_head S b1 L' last EB) as [(-> & ->)|(a & tl & ->)];
      simpl in *; repeat split; auto; try lia; tauto.
Qed.

Lemma between_total S : forall prev L last,
  between S prev = (L, last) ->
  total_length L + total_length S = last - prev.
Proof.
  induction S as [|[a b] S IH]; simpl; intros prev L last H.
  - inversion H; subst. unfold total_length; simpl. lia.
  - destruct (between S b) as [L' last'] eqn:EB. inversion H; subst; clear H.
    specialize (IH b L' last EB).
    unfold total_length in *. simpl. lia.
Qed.

Lemma total_length_app l1 l2 :
  total_length (l1 ++ l2) = total_length l1 + total_length l2.
Proof.
  unfold total_length. induction l1 as [|r l1 IH]; simpl; [reflexivity|].
  rewrite IH. lia.
Qed.

(** The shape of what [detect_nonsilent] returns, against the silent
    ranges: gaps of at least [msl] between the ranges, and lengths that
    complement those of the silent ranges. *)
Lemma detect_nonsilent_complement seg msl thr :
  well_formed seg -> 0 <= msl ->
  exists S N,
    detect_silence seg msl thr = Return S /\
    detect_nonsilent seg msl thr = Return N /\
    separated msl N /\
    total_length S + total_length N = len seg.
Proof.
  intros Hwf Hm.
  destruct (detect_silence_wide seg msl thr Hwf Hm) as (S & HS & Hchain & Hwide).
  destruct (len_bounds seg Hwf) as (Hlen & _).
  exists S. unfold detect_nonsilent. rewrite HS. simpl bind.
  destruct S as [|[s0 e0] S].
  - exists [(0, len seg)]. split; [reflexivity|]. split; [reflexivity|].
    split; [simpl; auto|]. unfold total_length; simpl. lia.
  - destruct ((s0 =? 0) && (e0 =? len seg)) eqn:E.
    + exists []. split; [reflexivity|]. split; [reflexivity|]. split; [exact I|].
      apply andb_true_iff in E as (E1 & E2).
      apply Z.eqb_eq in E1, E2. subst s0 e0.
      assert (HS' : S = []).
      { destruct S as [|[a b] S]; [reflexivity|].
        simpl in Hchain. destruct Hchain as (_ & _ & H1 & H2 & H3 & _). simpl in *. lia. }
      subst S. unfold total_length; simpl. lia.
    + destruct (between ((s0, e0) :: S) 0) as [L last] eqn:EB.
      destruct (between_separated msl _ 0 L last (len seg) Hwide EB) as (Hsep1 & Hsep2).
      pose proof (between_total _ 0 L last EB) as Htot.
      set (N := if negb (last =? len seg) then L ++ [(last, len seg)] else L).
      assert (HN : separated msl N /\
                   total_length ((s0, e0) :: S) + total_length N = len seg).
      { unfold N. destruct (last =? len seg) eqn:El; simpl negb; cbv iota.
        - apply Z.eqb_eq in El. split; [exact Hsep2 | lia].
        - split; [exact Hsep1|]. rewrite total_length_app.
          change (total_length [(last, len seg)]) with (len seg - last + 0). lia. }
      destruct HN as (HN1 & HN2).
      assert (Hpop : exists N',
                (match N with
                 | (0, 0) :: tl => Return tl
                 | _ => Return N
                 end = Return N') /\
                separated msl N' /\ total_length N' = total_length N).
      { destruct N as [|[[|p|p] [|q|q]] tl]; try (exists []; repeat split; auto; fail);
          try (eexists; split; [reflexivity|]; split; [exact HN1 | reflexivity]).
        exists tl. split; [reflexivity|]. split; [apply HN1|].
        unfold total_length; simpl. lia. }
      destruct Hpop as (N' & HN' & Hs' & Ht').
      exists N'. split; [reflexivity|]. split; [exact HN'|].
      split; [exact Hs' | lia].
Qed.

Lemma expanded_within_0 hi N : forall O,
  Forall2 (expanded_within 0 hi) N O -> O = N.
Proof.
  induction N as [|[s e] N IH]; intros O H; inversion H as [|? [s' e'] ? ? Hx HF]; subst.
  - reflexivity.
  - rewrite (IH _ HF). unfold expanded_within in Hx. simpl in Hx.
    f_equal. f_equal; lia.
Qed.

(** X10.  With [keep_silence = 0], as [process_audio] calls it, the ranges
    [split_audio_on_silence] cuts at are the non-silent ranges themselves,
    and any two consecutive ones are at least [min_silence_len] ms apart:
    the audio is only ever split at a silence of that length. *)
Theorem segments_separated
    (audio : AudioSegment) (min_silence_len : Z) (silence_thresh : pyfloat) :
  well_formed audio -> 0 <= min_silence_len ->
  exists N,
    detect_nonsilent audio min_silence_len silence_thresh = Return N /\
    split_ranges audio min_silence_len silence_thresh 0 = Return N /\
    separated min_silence_len N.
Proof.
  intros Hwf Hm.
  destruct (detect_nonsilent_complement audio min_silence_len silence_thresh Hwf Hm)
    as (S & N & _ & HN & Hsep & _).
  destruct (split_on_silence_spec audio min_silence_len silence_thresh 0 Hwf Hm
              (Z.le_refl 0)) as (N' & O & chunks & HN' & HO & _ & _ & _ & HF & _).
  rewrite HN in HN'. inversion HN'; subst N'.
  apply expanded_within_0 in HF. subst O.
  exists N. auto.
Qed.

Lemma segments_separated_witness :
  split_ranges two_bursts 2 (Fin (-20)%R) 0 = Return [(0, 3); (7, 10)] /\
  separated 2 [(0, 3); (7, 10)].
Proof.
  destruct (segments_separated two_bursts 2 (Fin (-20)%R) two_bursts_wf)
    as (N & HN & HO & Hsep); [lia|].
  assert (EN : N = [(0, 3); (7, 10)])
    by (pose proof two_bursts_nonsilent as H0; congruence).
  subst N. split; [exact HO | exact Hsep].
Defined.

(** X11.  With [keep_silence = 0] nothing is dropped but detected silence: the
    lengths of the ranges the segments are cut at and of the silent ranges
    add up to the length of the buffer. *)
Theorem segments_complement_silence
    (audio : AudioSegment) (min_silence_len : Z) (silence_thresh : pyfloat) :
  well_formed audio -> 0 <= min_silence_len ->
  exists S N,
    detect_silence audio min_silence_len silence_thresh = Return S /\
    split_ranges audio min_silence_len silence_thresh 0 = Return N /\
    total_length S + total_length N = len audio.
Proof.
  intros Hwf Hm.
  destruct (detect_nonsilent_complement audio min_silence_len silence_thresh Hwf Hm)
    as (S & N & HS & HN & _ & Htot).
  destruct (split_on_silence_spec audio min_silence_len silence_thresh 0 Hwf Hm
              (Z.le_refl 0)) as (N' & O & chunks & HN' & HO & _ & _ & _ & HF & _).
  rewrite HN in HN'. inversion HN'; subst N'.
  apply expanded_within_0 in HF. subst O.
  exists S, N. auto.
Qed.

Lemma segments_complement_silence_witness :
  detect_silence two_bursts 2 (Fin (-20)%R) = Return [(3, 7)] /\
  split_ranges two_bursts 2 (Fin (-20)%R) 0 = Return [(0, 3); (7, 10)] /\
  total_length [(3, 7)] + total_length [(0, 3); (7, 10)] = len two_bursts.
Proof.
  destruct (segments_complement_silence two_bursts 2 (Fin (-20)%R) two_bursts_wf)
    as (S & N & HS & HN & Htot); [lia|].
  assert (ES : S = [(3, 7)])
    by (pose proof two_bursts_silence as H0; congruence).
  assert (EN : N = [(0, 3); (7, 10)])
    by (pose proof two_bursts_ranges_0 as H0; congruence).
  subst S N. split; [exact HS|]. split; [exact HN | exact Htot].
Defined.

(** ** Runs of [process_audio] *)

Lemma concatenate_processed chunks processed m :
  matching_formats chunks -> Forall2 (processed_from m) chunks processed ->
  processed <> [] ->
  exists final, concatenate_chunks processed = Return final.
Proof.
  intros Hm HF Hne.
  destruct (processed_matching _ _ _ Hm HF) as (Hpm & Hpwf).
  destruct processed as [|p processed]; [contradiction|].
  inversion Hpwf; subst.
  rewrite concatenate_chunks_matching by assumption. eauto.
Qed.

Lemma process_audio_unfold w input_file output_file audio chunks :
  from_file w input_file = Return audio ->
  split_audio_on_silence audio MIN_SILENCE_LEN (pipeline_threshold audio) KEEP_SILENCE
    = Return chunks ->
  (chunks = [] ->
   process_audio w input_file output_file = (trace_no_chunks, Return tt)) /\
  (forall processed final,
     chunks <> [] ->
     process_chunks chunks SILENCE_MULTIPLIER = Return processed ->
     concatenate_chunks processed = Return final ->
     process_audio w input_file output_file = export_outcome w final output_file).
Proof.
  intros Hload Hsplit.
  unfold process_audio, load_audio, call, calculate_silence_threshold.
  rewrite Hload. cbn [io_bind]. fold (pipeline_threshold audio).
  rewrite Hsplit. split.
  - intros ->. reflexivity.
  - intros processed final Hne Hp Hc.
    destruct chunks as [|c chunks]; [contradiction|].
    cbn [io_bind]. rewrite Hp. cbn [io_bind]. rewrite Hc.
    unfold export_outcome, export_audio, print.
    destruct (export_mp3 w final output_file); reflexivity.
Qed.

(** X12.  [process_audio] can fail in two places only.  If the file cannot be
    decoded, the error line is printed, the exception is raised again and
    nothing else is called.  Once a well-formed audio is loaded, threshold,
    segmentation, chunk processing and concatenation never raise: either
    no chunk is found, or the concatenation of the processed chunks is
    handed to the export, whose outcome is the outcome of the run;
    "Processing complete." is printed only after an export that
    succeeded. *)
Theorem process_audio_outcome (w : World) (input_file output_file : string) :
  (forall e, from_file w input_file = Raise e ->
     process_audio w input_file output_file =
     ([Call "load_audio";
       Print ("Error loading audio file '" ++ input_file ++ "': " ++ e)%string],
      Raise e)) /\
  (forall audio, from_file w input_file = Return audio -> well_formed audio ->
     exists chunks,
       split_audio_on_silence audio MIN_SILENCE_LEN (pipeline_threshold audio)
         KEEP_SILENCE = Return chunks /\
       (chunks = [] ->
        process_audio w input_file output_file = (trace_no_chunks, Return tt)) /\
       (chunks <> [] ->
        exists processed final,
          process_chunks chunks SILENCE_MULTIPLIER = Return processed /\
          concatenate_chunks processed = Return final /\
          process_audio w input_file output_file
            = export_outcome w final output_file)).
Proof.
  split.
  - intros e He. unfold process_audio, load_audio. rewrite He. reflexivity.
  - intros audio Hload Hwf.
    destruct (split_chunks_wf audio MIN_SILENCE_LEN (pipeline_threshold audio)
                KEEP_SILENCE Hwf) as (chunks & Hsplit & Hall);
      [unfold MIN_SILENCE_LEN; lia | unfold KEEP_SILENCE; lia |].
    exists chunks. split; [exact Hsplit|].
    destruct (process_audio_unfold w input_file output_file audio chunks Hload Hsplit)
      as (Hnone & Hsome).
    split; [exact Hnone|]. intros Hne.
    assert (Hwfs : Forall well_formed chunks).
    { eapply Forall_impl; [|exact Hall]. simpl. tauto. }
    assert (Hm : matching_formats chunks).
    { intros a b Ha Hb. rewrite Forall_forall in Hall.
      destruct (Hall a Ha) as ((Aw & Ar & Ac) & _).
      destruct (Hall b Hb) as ((Bw & Br & Bc) & _).
      unfold same_format. rewrite Aw, Ar, Ac, Bw, Br, Bc. auto. }
    destruct (process_chunks_spec chunks SILENCE_MULTIPLIER Hwfs) as (processed & Hp & HF).
    assert (Hpne : processed <> []).
    { intros ->. inversion HF; subst. contradiction. }
    destruct (concatenate_processed chunks processed SILENCE_MULTIPLIER Hm HF Hpne)
      as (final & Hfinal).
    exists processed, final. split; [exact Hp|]. split; [exact Hfinal|].
    exact (Hsome processed final Hne Hp Hfinal).
Qed.

Lemma process_audio_outcome_witness :
  process_audio world_unreadable "in.mp3" "out.mp3" =
  ([Call "load_audio";
    Print "Error loading audio file 'in.mp3': CouldntDecodeError"],
   Raise "CouldntDecodeError") /\
  exists chunks,
    split_audio_on_silence long_silence MIN_SILENCE_LEN (pipeline_threshold long_silence)
      KEEP_SILENCE = Return chunks /\
    (chunks = [] ->
     process_audio (world_of long_silence) "in.mp3" "out.mp3"
     = (trace_no_chunks, Return tt)).
Proof.
  split.
  - apply (process_audio_outcome world_unreadable "in.mp3" "out.mp3"). reflexivity.
  - destruct (proj2 (process_audio_outcome (world_of long_silence) "in.mp3" "out.mp3")
                long_silence eq_refl long_silence_wf) as (chunks & H1 & H2 & _).
    exists chunks. split; assumption.
Defined.

(** ** Two recordings end to end *)

Lemma mul_zero fragment width :
  width = 1 \/ width = 2 \/ width = 4 ->
  Forall (fun v => v = 0) (Audioop.mul fragment width 0%R).
Proof.
  intros Hw. pose proof (sample_range_width width Hw) as Hr.
  unfold Audioop.mul. apply Forall_forall. intros v Hv.
  apply in_map_iff in Hv as (u & <- & _).
  unfold Audioop.fbound. rewrite Rmult_0_r.
  destruct (Rlt_dec _ _) as [H1|H1].
  - apply lt_IZR in H1. lia.
  - destruct (Rlt_dec _ _) as [H2|H2].
    + rewrite <- plus_IZR in H2. apply lt_IZR in H2. lia.
    + apply Zfloor_eq. simpl. lra.
Qed.

Lemma concat_repeat_zeros (l : list Z) (k : nat) :
  Forall (fun v => v = 0) l -> Forall (fun v => v = 0) (List.concat (repeat l k)).
Proof.
  intros Hl. induction k as [|k IH]; simpl; [constructor|].
  apply Forall_app. split; assumption.
Qed.

Lemma getitem_zeros seg start stop c :
  well_formed seg -> Forall (fun v => v = 0) (data seg) ->
  getitem seg start stop = Return c -> Forall (fun v => v = 0) (data c).
Proof.
  intros Hwf Hz. unfold getitem.
  set (d := py_slice (data seg) _ _).
  assert (Hd : Forall (fun v => v = 0) d).
  { unfold d, py_slice. apply Forall_firstn, Forall_skipn. exact Hz. }
  destruct (_ =? 0); [intros H; inversion H; subst; exact Hd|].
  destruct (_ <? _); [discriminate|].
  intros H; inversion H; subst. cbn [spawn data].
  apply Forall_app. split; [exact Hd|].
  apply concat_repeat_zeros, mul_zero. apply Hwf.
Qed.

Lemma rms_zeros (l : list Z) width :
  Forall (fun v => v = 0) l -> Audioop.rms l width = 0.
Proof.
  intros Hz. unfold Audioop.rms. destruct l as [|v l]; [reflexivity|].
  assert (Hs : forall l', Forall (fun v => v = 0) l' ->
                 fold_left (fun s v => s + v * v) l' 0 = 0).
  { induction l' as [|u l' IH]; simpl; intros H; [reflexivity|].
    inversion H; subst. simpl. now apply IH. }
  rewrite (Hs _ Hz). rewrite Zdiv_0_l. reflexivity.
Qed.

(** In a digitally silent segment every window is silent, at any
    threshold. *)
Lemma window_silent_zeros seg msl thr i :
  well_formed seg -> Forall (fun v => v = 0) (data seg) ->
  0 <= msl -> 0 <= i ->
  window_silent seg msl (db_to_float thr * IZR (max_possible_amplitude seg))%R i
  = Return true.
Proof.
  intros Hwf Hz Hm Hi. unfold window_silent.
  destruct (getitem_succeeds seg i (i + msl) Hwf Hi) as [c Hc]; [lia|].
  rewrite Hc. simpl bind.
  unfold rms. rewrite (rms_zeros _ _ (getitem_zeros _ _ _ _ Hwf Hz Hc)).
  rewrite Rle_bool_true; [reflexivity|].
  apply Rmult_le_pos; [apply db_to_float_nonneg|].
  apply IZR_le. pose proof (max_possible_amplitude_pos _ Hwf). lia.
Qed.

(** X13.  A digitally silent recording of at least 200 ms, in any format, is
    never exported: [process_audio] finds no chunk, prints the "No chunks
    were created" line and returns. *)
Theorem silent_recording_not_exported
    (w : World) (input_file output_file : string) (audio : AudioSegment) :
  from_file w input_file = Return audio ->
  well_formed audio ->
  Forall (fun v => v = 0) (data audio) ->
  MIN_SILENCE_LEN <= len audio ->
  process_audio w input_file output_file = (trace_no_chunks, Return tt).
Proof.
  intros Hload Hwf Hz Hlen.
  assert (Hsplit : split_audio_on_silence audio MIN_SILENCE_LEN
                     (pipeline_threshold audio) KEEP_SILENCE = Return []).
  { apply (split_all_silent audio MIN_SILENCE_LEN (pipeline_threshold audio)
             KEEP_SILENCE Hwf); [unfold MIN_SILENCE_LEN; lia | exact Hlen |].
    intros i Hi. apply window_silent_zeros; auto; [unfold MIN_SILENCE_LEN|]; lia. }
  apply (process_audio_unfold w input_file output_file audio [] Hload Hsplit).
  reflexivity.
Qed.

Lemma silent_recording_not_exported_witness :
  process_audio (world_of long_silence) "in.mp3" "out.mp3"
  = (trace_no_chunks, Return tt).
Proof.
  apply (silent_recording_not_exported (world_of long_silence) "in.mp3" "out.mp3"
           long_silence eq_refl long_silence_wf).
  - apply Forall_zero_repeat.
  - vm_compute. discriminate.
Defined.

(** X14.  A recording shorter than 200 ms is never split, whatever it holds:
    the one chunk is the slice of the whole recording, and what is handed
    to the export is [process_chunk] of that slice. *)
Theorem short_recording_single_chunk
    (w : World) (input_file output_file : string) (audio : AudioSegment) :
  from_file w input_file = Return audio ->
  well_formed audio ->
  len audio < MIN_SILENCE_LEN ->
  exists c p,
    getitem audio 0 (len audio) = Return c /\
    process_chunk c SILENCE_MULTIPLIER = Return p /\
    process_audio w input_file output_file = export_outcome w p output_file.
Proof.
  intros Hload Hwf Hlen.
  destruct (split_none_silent audio MIN_SILENCE_LEN (pipeline_threshold audio)
              KEEP_SILENCE Hwf) as (_ & c & Hc & Hsplit);
    [unfold MIN_SILENCE_LEN; lia | unfold KEEP_SILENCE; lia | left; exact Hlen |].
  destruct (len_bounds audio Hwf) as (Hl & _).
  pose proof (getitem_wf audio 0 (len audio) c Hwf (Z.le_refl 0) Hl Hc) as Hcwf.
  destruct (process_chunk_wf c SILENCE_MULTIPLIER Hcwf) as (p & Hp & Hpwf & _).
  exists c, p. split; [exact Hc|]. split; [exact Hp|].
  apply (process_audio_unfold w input_file output_file audio [c] Hload Hsplit)
    with (processed := [p]).
  - discriminate.
  - unfold process_chunks. simpl. rewrite Hp. reflexivity.
  - unfold concatenate_chunks. simpl. rewrite (append_empty p Hpwf). reflexivity.
Qed.

Lemma short_recording_single_chunk_witness :
  exists c p,
    getitem short_silence 0 (len short_silence) = Return c /\
    process_chunk c SILENCE_MULTIPLIER = Return p /\
    process_audio (world_of short_silence) "in.mp3" "out.mp3"
    = export_outcome (world_of short_silence) p "out.mp3".
Proof.
  apply (short_recording_single_chunk (world_of short_silence) "in.mp3" "out.mp3"
           short_silence eq_refl short_silence_wf).
  vm_compute. reflexivity.
Defined.

(** ** The threshold as an amplitude *)

(** X15.  The threshold [calculate_silence_threshold] returns, once
    [split_audio_on_silence] has turned it into the amplitude it compares
    window RMS values with, is the RMS of the whole audio scaled by
    10^(offset_db / 20): with the offset of -16 dB a window counts as
    silent when its RMS is at most about 15.8 % of the overall RMS, and
    for an audio of RMS 0 only windows of RMS 0 do. *)
Theorem threshold_amplitude (audio : AudioSegment) (offset_db : R) (thr : pyfloat) :
  well_formed audio ->
  calculate_silence_threshold audio offset_db = Return thr ->
  (db_to_float thr * IZR (max_possible_amplitude audio))%R
  = (IZR (rms audio) * Rpower 10 (offset_db / 20))%R.
Proof.
  intros Hwf H. unfold calculate_silence_threshold in H. inversion H; subst; clear H.
  pose proof (max_possible_amplitude_pos audio Hwf) as Hm. apply IZR_lt in Hm.
  unfold dBFS. destruct (rms audio =? 0) eqn:E.
  - apply Z.eqb_eq in E. rewrite E. simpl. lra.
  - apply Z.eqb_neq in E.
    assert (Hr : (0 < IZR (rms audio))%R).
    { apply IZR_lt. unfold rms, Audioop.rms in *.
      destruct (data audio); [contradiction|].
      pose proof (Z.sqrt_nonneg
        (fold_left (fun s v => s + v * v) (z :: l) 0 / Z.of_nat (List.length (z :: l)))).
      lia. }
    set (x := (IZR (rms audio) / IZR (max_possible_amplitude audio))%R).
    assert (Hx : (0 < x)%R) by (apply Rdiv_lt_0_compat; assumption).
    pose proof (db_roundtrip x Hx) as Hrt.
    unfold ratio_to_db in *. destruct (Req_EM_T x 0) as [H0|H0]; [lra|].
    simpl pyfloat_add. simpl db_to_float in *.
    replace ((20 * (ln x / ln 10) + offset_db) / 20)%R
      with (20 * (ln x / ln 10) / 20 + offset_db / 20)%R
      by (pose proof ln_10_pos; field; lra).
    rewrite Rpower_plus, Hrt. unfold x. field. lra.
Qed.

Lemma threshold_amplitude_witness :
  (db_to_float
     (Fin (20 * (ln (IZR 32767 / IZR 32768) / ln 10) + SILENCE_THRESH_OFFSET))
   * IZR (max_possible_amplitude loud_signal))%R
  = (IZR (rms loud_signal) * Rpower 10 (SILENCE_THRESH_OFFSET / 20))%R.
Proof.
  apply (threshold_amplitude loud_signal SILENCE_THRESH_OFFSET
           (Fin (20 * (ln (IZR 32767 / IZR 32768) / ln 10) + SILENCE_THRESH_OFFSET))
           loud_signal_wf).
  unfold calculate_silence_threshold, dBFS.
  assert (Hr : rms loud_signal = 32767) by (vm_compute; reflexivity).
  rewrite Hr. change (32767 =? 0) with false. cbv iota.
  change (max_possible_amplitude loud_signal) with 32768.
  unfold ratio_to_db.
  destruct (Req_EM_T (IZR 32767 / IZR 32768) 0) as [H0|H0]; [exfalso; lra|].
  reflexivity.
Defined.

(** ** The length of a processed slice *)

Lemma processed_length_aligned (chunk : AudioSegment) (silence_multiplier : Z) :
  well_formed chunk -> 11025 <= frame_rate chunk -> 0 <= silence_multiplier ->
  millisecond_aligned chunk ->
  exists out,
    process_chunk chunk silence_multiplier = Return out /\
    len out = len chunk * (1 + silence_multiplier).
Proof.
  intros Hwf Hr Hm Hal.
  destruct (process_chunk_frames chunk silence_multiplier Hwf Hr)
    as (out & E & Hout & Hor & Hoc & Hof & HE).
  exists out. split; [exact Hout|].
  destruct (len_bounds chunk Hwf) as (HL & _).
  pose proof (frame_count_nonneg chunk Hwf) as Hn.
  unfold millisecond_aligned in Hal.
  set (L := len chunk) in *. set (n := frame_count chunk) in *.
  set (r := frame_rate chunk) in *.
  set (X := L * silence_multiplier) in *.
  assert (HX : 0 <= X) by (unfold X; nia).
  set (q := Z.quot (11025 * X) 1000) in *.
  assert (Hq : 0 <= q /\ 1000 * q <= 11025 * X < 1000 * q + 1000).
  { unfold q. rewrite Z.quot_div_nonneg by lia.
    pose proof (Z.div_mod (11025 * X) 1000 ltac:(lia)).
    pose proof (Z.mod_pos_bound (11025 * X) 1000 ltac:(lia)).
    assert (0 <= 11025 * X / 1000) by (apply Z.div_pos; lia). lia. }
  rewrite Z2Nat.id in HE by lia.
  assert (HE0 : 0 <= E).
  { destruct HE as [(_ & ->)|[(_ & ->)|(Hp & HE1 & HE2)]]; nia. }
  unfold len at 1. rewrite Hor, Hof. fold r n.
  replace (L * (1 + silence_multiplier)) with (L + X) by (unfold X; ring).
  apply py_round_div_unique; [nia | lia |].
  destruct HE as [(Hr11 & HEq)|[(Hp0 & HEq)|(Hp & HE1 & HE2)]].
  - subst E. rewrite Hr11 in *. lia.
  - subst E. assert (Hq0 : q = 0) by lia. assert (HX0 : X = 0) by lia.
    rewrite HX0, !Z.add_0_r. lia.
  - assert (H1 : r * (11025 * X - 2000) < r * (1000 * (q - 1)))
      by (apply Z.mul_lt_mono_pos_l; lia).
    assert (H2 : r * (1000 * (q - 1)) <= r * (11025 * X - 1000))
      by (apply Z.mul_le_mono_nonneg_l; lia).
    assert (H3 : 11025 * Z.abs (2 * (1000 * (n + E)) - 2 * r * (L + X)) < 11025 * r)
      by nia.
    lia.
Qed.

(** X16.  A slice of an audio sampled at 11025 Hz or more, cut at millisecond
    offsets within its data, comes back from [process_chunk] exactly
    (1 + silence_multiplier) times as long, in milliseconds, as the range
    it was cut at: with the multiplier 2 of [process_audio], a 2000 ms
    segment becomes a 6000 ms chunk. *)
Theorem processed_slice_length
    (audio : AudioSegment) (start stop silence_multiplier : Z) :
  well_formed audio -> 11025 <= frame_rate audio ->
  0 <= start <= stop -> stop <= len audio ->
  parse_position audio stop <= frame_count audio ->
  0 <= silence_multiplier ->
  exists c out,
    getitem audio start stop = Return c /\
    process_chunk c silence_multiplier = Return out /\
    len out = (stop - start) * (1 + silence_multiplier).
Proof.
  intros Hwf Hr Hse Hlen Hin Hm.
  destruct (getitem_inside audio start stop Hwf ltac:(lia) Hse Hlen Hin)
    as (c & Hc & (Hcw & Hcr & Hcc) & _ & Hl & Hal).
  assert (Hcwf : well_formed c).
  { apply (getitem_wf audio start stop c Hwf); [lia | lia | exact Hc]. }
  destruct (processed_length_aligned c silence_multiplier Hcwf) as (out & Hout & Hlo);
    [rewrite Hcr; exact Hr | exact Hm | exact Hal |].
  exists c, out. split; [exact Hc|]. split; [exact Hout|]. now rewrite Hlo, Hl.
Qed.

Lemma processed_slice_length_witness :
  exists c out,
    getitem chunk_99_frames 0 9 = Return c /\
    process_chunk c 2 = Return out /\
    len out = (9 - 0) * (1 + 2).
Proof.
  apply (processed_slice_length chunk_99_frames 0 9 2 chunk_99_frames_wf).
  - simpl. lia.
  - lia.
  - vm_compute. discriminate.
  - vm_compute. discriminate.
  - lia.
Defined.
